(** * Episode controller of podverse-api: a shallow embedding

    The development follows [src/controllers/episode.ts].  Database tables
    are lists of rows (table order is the order in which the storage engine
    enumerates them), asynchronous functions are computations in a small
    state-and-exception monad over a [World], and every interaction with a
    collaborator that the properties below speak about (remote fetches,
    calls of the media-reference controller, log lines, queries) is
    recorded in the world's [trace].  The storage engine answers every
    query and every write the controller sends, with one exception: a
    query whose [IN] list is empty is rejected.  Other failures of the
    storage are outside the model. *)

From Stdlib Require Import List String Ascii ZArith Bool Arith Lia Permutation Sorted.
Import ListNotations.
Local Open Scope string_scope.
Local Open Scope list_scope.

(** ** Data model *)

Module Episode.
Record t := mk {
  id : string;
  podcastId : string;
  title : string;
  description : option string;
  isPublic : bool;
  pubDate : Z;
  pastHourTotalUniquePageviews : Z;
  pastDayTotalUniquePageviews : Z;
  pastWeekTotalUniquePageviews : Z;
  pastMonthTotalUniquePageviews : Z;
  pastYearTotalUniquePageviews : Z;
  pastAllTimeTotalUniquePageviews : Z;
  chaptersUrl : option string;
  chaptersUrlLastParsed : option Z
}.

Definition set_chaptersUrlLastParsed (d : option Z) (e : t) : t :=
  mk (id e) (podcastId e) (title e) (description e) (isPublic e) (pubDate e)
     (pastHourTotalUniquePageviews e) (pastDayTotalUniquePageviews e)
     (pastWeekTotalUniquePageviews e) (pastMonthTotalUniquePageviews e)
     (pastYearTotalUniquePageviews e) (pastAllTimeTotalUniquePageviews e)
     (chaptersUrl e) d.

Definition set_description (d : option string) (e : t) : t :=
  mk (id e) (podcastId e) (title e) d (isPublic e) (pubDate e)
     (pastHourTotalUniquePageviews e) (pastDayTotalUniquePageviews e)
     (pastWeekTotalUniquePageviews e) (pastMonthTotalUniquePageviews e)
     (pastYearTotalUniquePageviews e) (pastAllTimeTotalUniquePageviews e)
     (chaptersUrl e) (chaptersUrlLastParsed e).
End Episode.

Module MediaRef.
Record t := mk {
  id : string;
  episodeId : string;
  startTime : Z;
  endTime : option Z;
  title : string;
  imageUrl : option string;
  linkUrl : option string;
  isOfficialChapter : bool;
  isPublic : bool;
  owner : string
}.
End MediaRef.

Module Podcast.
Record t := mk {
  id : string;
  categories : list string
}.
End Podcast.

(** A row of [RecentEpisodeByCategory] or [RecentEpisodeByPodcast];
    [groupId] is the [categoryId], respectively the [podcastId], column. *)
Module RecentEpisode.
Record t := mk {
  episodeId : string;
  groupId : string;
  pubDate : Z
}.
End RecentEpisode.

(** The raw row [{ id, isOfficialChapter, startTime }] that the
    synchronizer selects from the media-reference table. *)
Module RawChapter.
Record t := mk {
  id : string;
  isOfficialChapter : bool;
  startTime : Z
}.
End RawChapter.

(** One entry of the [chapters] array of a remote chapters document. *)
Module RemoteChapter.
Record t := mk {
  startTime : Z;
  title : string;
  img : option string;
  url : option string
}.
End RemoteChapter.

(** The object literal handed to [updateMediaRef]: [id] and the fields that
    are present in the literal ([None] is an absent key; [imageUrl] and
    [linkUrl] can be present with value [null]). *)
Module MediaRefPatch.
Record t := mk {
  id : string;
  imageUrl : option (option string);
  isOfficialChapter : option bool;
  isPublic : option bool;
  linkUrl : option (option string);
  startTime : option Z;
  title : option string;
  episodeId : option string
}.
End MediaRefPatch.

(** The object literal handed to [createMediaRef]. *)
Module NewMediaRef.
Record t := mk {
  imageUrl : option string;
  isOfficialChapter : bool;
  isPublic : bool;
  linkUrl : option string;
  startTime : Z;
  title : string;
  owner : string;
  episodeId : string
}.
End NewMediaRef.

(** The errors of [http-errors] the controllers throw. *)
Inductive HttpError :=
| NotFound (message : string).

(** Thrown values: [JsError msg] is [new Error(msg)], [Http error] an error
    made by [http-errors], and [Rejected msg] a failure raised by a
    collaborator (network, JSON parser, storage, media-reference
    controller). *)
Inductive Exn :=
| JsError (msg : string)
| Http (error : HttpError)
| Rejected (msg : string).

(** What [JSON.parse(response).chapters] evaluates to: a falsy or absent
    value, or the array of chapters. *)
Inductive ChaptersField :=
| NoChapters
| Chapters (newChapters : list RemoteChapter.t).

Inductive Direction := ASC | DESC.

(** ** Query plans of the episode query builder *)

Inductive Condition :=
| CondTrue
| CondTitleLike (searchAllFieldsText : string)
| CondPastHourPageviews
| CondPastDayPageviews
| CondPastWeekPageviews
| CondPastMonthPageviews
| CondPastYearPageviews
| CondPastAllTimePageviews
| CondPubDateAfter (date : Z)
| CondIsPublic
| CondIdIn (recentEpisodeIds : list string)
| CondPodcastIdIn (podcastIds : list string).

Inductive Join :=
| InnerJoinPodcast (andSelect : bool)
| InnerJoinCategories (categoriesIds : list string).

Module QB.
Record t := mk {
  joins : list Join;
  conditions : list Condition;
  offset : option nat;
  limit : option nat;
  orderBy : option (string * option Direction)
}.

Definition andWhere (c : Condition) (qb : t) : t :=
  mk (joins qb) (conditions qb ++ [c]) (offset qb) (limit qb) (orderBy qb).
Definition innerJoin (j : Join) (qb : t) : t :=
  mk (joins qb ++ [j]) (conditions qb) (offset qb) (limit qb) (orderBy qb).
Definition set_offset (skip : option nat) (qb : t) : t :=
  mk (joins qb) (conditions qb) skip (limit qb) (orderBy qb).
Definition set_limit (take : option nat) (qb : t) : t :=
  mk (joins qb) (conditions qb) (offset qb) take (orderBy qb).
Definition set_orderBy (column : string) (dir : option Direction) (qb : t) : t :=
  mk (joins qb) (conditions qb) (offset qb) (limit qb) (Some (column, dir)).
End QB.

(** The request's [query] object of the listing entry points. *)
Module Query.
Record t := mk {
  includePodcast : bool;
  searchAllFieldsText : option string;
  skip : option nat;
  take : option nat;
  sort : string;
  categories : option string;
  podcastId : option string
}.
End Query.

(** ** Worlds and traces *)

Inductive Event :=
| EvRequest (url : string)
| EvEpisodeUpdate (id : string) (chaptersUrlLastParsed : Z)
| EvUpdateMediaRef (obj : MediaRefPatch.t) (loggedInUserId : string)
| EvCreateMediaRef (obj : NewMediaRef.t)
| EvLog (label : string) (error : Exn)
| EvLogCount (label : string) (count : nat)
| EvRecentEpisodeQuery (type : string) (ids : list string)
| EvEpisodeQuery (qb : QB.t)
| EvEpisodeRemove (id : string).

Record World := mkWorld {
  episodes : list Episode.t;
  mediaRefs : list MediaRef.t;
  podcasts : list Podcast.t;
  recentEpisodesByCategory : list RecentEpisode.t;
  recentEpisodesByPodcast : list RecentEpisode.t;
  now : Z;
  trace : list Event
}.

Definition set_episodes (l : list Episode.t) (w : World) : World :=
  mkWorld l (mediaRefs w) (podcasts w) (recentEpisodesByCategory w)
          (recentEpisodesByPodcast w) (now w) (trace w).
Definition set_mediaRefs (l : list MediaRef.t) (w : World) : World :=
  mkWorld (episodes w) l (podcasts w) (recentEpisodesByCategory w)
          (recentEpisodesByPodcast w) (now w) (trace w).
Definition set_now (t : Z) (w : World) : World :=
  mkWorld (episodes w) (mediaRefs w) (podcasts w) (recentEpisodesByCategory w)
          (recentEpisodesByPodcast w) t (trace w).
Definition record_event (ev : Event) (w : World) : World :=
  mkWorld (episodes w) (mediaRefs w) (podcasts w) (recentEpisodesByCategory w)
          (recentEpisodesByPodcast w) (now w) (trace w ++ [ev]).

(** ** The monad of asynchronous controller code

    A computation runs on a world and either returns or throws; the world
    it leaves behind is kept in both cases (what was written to storage
    before an exception stays written). *)

Inductive Outcome (A : Type) :=
| Returns (a : A)
| Throws (e : Exn).
Arguments Returns {A} a.
Arguments Throws {A} e.

Definition M (A : Type) : Type := World -> Outcome A * World.

Definition ret {A} (a : A) : M A := fun w => (Returns a, w).
Definition throw {A} (e : Exn) : M A := fun w => (Throws e, w).
Definition bind {A B} (m : M A) (k : A -> M B) : M B :=
  fun w =>
    match m w with
    | (Returns a, w1) => k a w1
    | (Throws e, w1) => (Throws e, w1)
    end.
Definition tryCatch {A} (body : M A) (handler : Exn -> M A) : M A :=
  fun w =>
    match body w with
    | (Returns a, w1) => (Returns a, w1)
    | (Throws e, w1) => handler e w1
    end.
Definition emit (ev : Event) : M unit := fun w => (Returns tt, record_event ev w).
Definition getWorld : M World := fun w => (Returns w, w).

Declare Scope async_scope.
Delimit Scope async_scope with async.
Notation "x <- m ;; k" := (bind m (fun x => k))
  (at level 61, m at next level, right associativity) : async_scope.
Notation "m ;; k" := (bind m (fun _ => k))
  (at level 61, right associativity) : async_scope.
Local Open Scope async_scope.

(** [for (const x of xs) { await body(x) }] *)
Fixpoint forOf {A} (xs : list A) (body : A -> M unit) : M unit :=
  match xs with
  | [] => ret tt
  | x :: rest => body x ;; forOf rest body
  end.

(** ** Collaborators that live outside the controller

    The controller imports [request] ([lib/request]), [getQueryOrderColumn]
    ([lib/utility]), [updateMediaRef] and [createMediaRef]
    ([controllers/mediaRef]) and [superUserId] ([config]); it is embedded
    over an arbitrary implementation of them.

    - [request url] is the body of the response, or the error it throws;
    - [parseChapters response] is [JSON.parse(response).chapters], or the
      error thrown by the parser or by reading [chapters] off [null];
    - [updateMediaRef obj loggedInUserId] and [createMediaRef obj] act on
      the media-reference table: they give the table they leave behind, or
      the error they throw (the table is then as it was);
    - [titleLike text title] is the storage engine's verdict on
      [LOWER(title) LIKE text], [normalizeSearchText] is
      [text.toLowerCase().trim()] wrapped in [%], and
      [orderRows column direction] is the engine's [ORDER BY] on episodes
      ([direction] is [None] for [orderBy(column)]);
    - [localDayBefore t] is the instant [date.setDate(date.getDate() - 1)]
      makes of the instant [t]: the same wall-clock time one calendar day
      earlier in the time zone of the server, 24 hours before [t] unless
      a daylight-saving change lies in between. *)
Record Services := mkServices {
  superUserId : string;
  request : string -> Exn + string;
  parseChapters : string -> Exn + ChaptersField;
  updateMediaRef : MediaRefPatch.t -> string -> list MediaRef.t -> Exn + list MediaRef.t;
  createMediaRef : NewMediaRef.t -> list MediaRef.t -> Exn + list MediaRef.t;
  getQueryOrderColumn : string -> string -> string -> string * Direction;
  titleLike : string -> string -> bool;
  normalizeSearchText : string -> string;
  orderRows : string -> option Direction -> list Episode.t -> list Episode.t;
  localDayBefore : Z -> Z
}.

(** JavaScript truthiness of a nullable string. *)
Definition truthy (s : option string) : bool :=
  match s with
  | Some v => negb (v =? EmptyString)
  | None => false
  end.

(** [x || null] on a nullable string. *)
Definition orNull (s : option string) : option string :=
  if truthy s then s else None.

(** [new Date(d).getTime()]: [new Date(null)] is the epoch. *)
Definition getTime (d : option Z) : Z :=
  match d with
  | Some t => t
  | None => 0%Z
  end.

Definition isSome {A} (o : option A) : bool :=
  match o with Some _ => true | None => false end.

(** ** Chapter Synchronizer: [retrieveLatestChapters] *)

Section Controller.
Variable sv : Services.

(** [qb.getRawOne()] of the episode lookup by id. *)
Definition getRawOneEpisode (id : string) : M (option Episode.t) :=
  fun w => (Returns (find (fun e => Episode.id e =? id) (episodes w)), w).

(** [episodeRepository.update(id, { chaptersUrlLastParsed: new Date() })] *)
Definition episodeRepositoryUpdate (id : string) : M unit :=
  fun w =>
    let stamp := now w in
    let rows :=
      map (fun e => if Episode.id e =? id
                    then Episode.set_chaptersUrlLastParsed (Some stamp) e
                    else e) (episodes w) in
    (Returns tt, record_event (EvEpisodeUpdate id stamp) (set_episodes rows w)).

Definition callRequest (url : string) : M string :=
  fun w =>
    let w1 := record_event (EvRequest url) w in
    match request sv url with
    | inl e => (Throws e, w1)
    | inr response => (Returns response, w1)
    end.

Definition callParse (response : string) : M ChaptersField :=
  fun w =>
    match parseChapters sv response with
    | inl e => (Throws e, w)
    | inr parsedResponse => (Returns parsedResponse, w)
    end.

Definition callUpdateMediaRef (obj : MediaRefPatch.t) (loggedInUserId : string) : M unit :=
  fun w =>
    let w1 := record_event (EvUpdateMediaRef obj loggedInUserId) w in
    match updateMediaRef sv obj loggedInUserId (mediaRefs w1) with
    | inl e => (Throws e, w1)
    | inr rows => (Returns tt, set_mediaRefs rows w1)
    end.

Definition callCreateMediaRef (obj : NewMediaRef.t) : M unit :=
  fun w =>
    let w1 := record_event (EvCreateMediaRef obj) w in
    match createMediaRef sv obj (mediaRefs w1) with
    | inl e => (Throws e, w1)
    | inr rows => (Returns tt, set_mediaRefs rows w1)
    end.

Definition consoleLog (label : string) (error : Exn) : M unit :=
  emit (EvLog label error).

(** The query for [existingChapters]: every media reference with
    [isOfficialChapter = TRUE]; the query has no other predicate. *)
Definition getExistingChapters : M (list RawChapter.t) :=
  fun w =>
    (Returns
       (map (fun m => RawChapter.mk (MediaRef.id m) (MediaRef.isOfficialChapter m)
                                    (MediaRef.startTime m))
            (filter MediaRef.isOfficialChapter (mediaRefs w))), w).

Definition deadChaptersOf (existingChapters : list RawChapter.t)
           (newChapters : list RemoteChapter.t) : list RawChapter.t :=
  filter (fun x =>
            forallb (fun y => negb (RemoteChapter.startTime y =? RawChapter.startTime x)%Z)
                    newChapters)
         existingChapters.

(** [{ ...deadChapter, isPublic: false }] *)
Definition suppressPatch (deadChapter : RawChapter.t) : MediaRefPatch.t :=
  MediaRefPatch.mk (RawChapter.id deadChapter) None
                   (Some (RawChapter.isOfficialChapter deadChapter))
                   (Some false) None
                   (Some (RawChapter.startTime deadChapter)) None None.

Definition updatePatch (existingId id : string) (newChapter : RemoteChapter.t)
  : MediaRefPatch.t :=
  MediaRefPatch.mk existingId
                   (Some (orNull (RemoteChapter.img newChapter)))
                   (Some true) (Some true)
                   (Some (orNull (RemoteChapter.url newChapter)))
                   (Some (RemoteChapter.startTime newChapter))
                   (Some (RemoteChapter.title newChapter))
                   (Some id).

Definition createObj (id : string) (newChapter : RemoteChapter.t) : NewMediaRef.t :=
  NewMediaRef.mk (orNull (RemoteChapter.img newChapter)) true true
                 (orNull (RemoteChapter.url newChapter))
                 (RemoteChapter.startTime newChapter)
                 (RemoteChapter.title newChapter)
                 (superUserId sv) id.

(** The body of the [try] inside the loop over [newChapters]. *)
Definition reconcileNewChapter (existingChapters : list RawChapter.t) (id : string)
           (newChapter : RemoteChapter.t) : M unit :=
  match find (fun x => (RawChapter.startTime x =? RemoteChapter.startTime newChapter)%Z)
             existingChapters with
  | Some existingChapter =>
      if negb (RawChapter.id existingChapter =? EmptyString)
      then callUpdateMediaRef (updatePatch (RawChapter.id existingChapter) id newChapter)
                              (superUserId sv)
      else callCreateMediaRef (createObj id newChapter)
  | None => callCreateMediaRef (createObj id newChapter)
  end.

Definition suppressDeadChapters (deadChapters : list RawChapter.t) : M unit :=
  forOf deadChapters
        (fun deadChapter => callUpdateMediaRef (suppressPatch deadChapter) (superUserId sv)).

Definition syncNewChapters (existingChapters : list RawChapter.t) (id : string)
           (newChapters : list RemoteChapter.t) : M unit :=
  forOf newChapters
        (fun newChapter =>
           tryCatch (reconcileNewChapter existingChapters id newChapter)
                    (consoleLog "retrieveLatestChapters newChapter")).

(** The body of the outer [try]. *)
Definition remoteSync (episodeId chaptersUrl id : string) : M unit :=
  episodeRepositoryUpdate episodeId ;;
  response <- callRequest chaptersUrl ;;
  parsedResponse <- callParse response ;;
  match parsedResponse with
  | Chapters newChapters =>
      existingChapters <- getExistingChapters ;;
      suppressDeadChapters (deadChaptersOf existingChapters newChapters) ;;
      syncNewChapters existingChapters id newChapters
  | NoChapters => ret tt
  end.

(** [ORDER BY mediaRef.startTime ASC] *)
Fixpoint insertByStartTime (m : MediaRef.t) (l : list MediaRef.t) : list MediaRef.t :=
  match l with
  | [] => [m]
  | x :: rest =>
      if (MediaRef.startTime m <=? MediaRef.startTime x)%Z
      then m :: l
      else x :: insertByStartTime m rest
  end.

Definition orderByStartTime (l : list MediaRef.t) : list MediaRef.t :=
  fold_right insertByStartTime [] l.

Definition officialChaptersOf (id : string) (rows : list MediaRef.t) : list MediaRef.t :=
  filter (fun m => MediaRef.isOfficialChapter m && (MediaRef.episodeId m =? id)) rows.

(** The final [getManyAndCount()] *)
Definition getOfficialChaptersForEpisode (id : string) : M (list MediaRef.t * nat) :=
  fun w =>
    let rows := officialChaptersOf id (mediaRefs w) in
    (Returns (orderByStartTime rows, List.length rows), w).

(** The guard of the remote sync. *)
Definition shouldSync (nowMs : Z) (chaptersUrl : option string)
           (chaptersUrlLastParsed : option Z) : bool :=
  let halfDay := (nowMs + (1 * 12 * 60 * 60 * 1000))%Z in
  let chaptersUrlLastParsedDate := getTime chaptersUrlLastParsed in
  truthy chaptersUrl
  && (negb (isSome chaptersUrlLastParsed) || (halfDay <? chaptersUrlLastParsedDate)%Z).

Definition retrieveLatestChapters (id : string) : M (list MediaRef.t * nat) :=
  episode <- getRawOneEpisode id ;;
  match episode with
  | None => throw (JsError "Episode not found")
  | Some episode =>
      let chaptersUrl := Episode.chaptersUrl episode in
      let chaptersUrlLastParsed := Episode.chaptersUrlLastParsed episode in
      w <- getWorld ;;
      (if shouldSync (now w) chaptersUrl chaptersUrlLastParsed
       then tryCatch (remoteSync (Episode.id episode)
                                 (match chaptersUrl with Some u => u | None => EmptyString end)
                                 id)
                     (consoleLog "retrieveLatestChapters request")
       else ret tt) ;;
      getOfficialChaptersForEpisode id
  end.

(** ** Episode Query Builder *)

(** [s.split(',')] *)
Fixpoint split (s : string) : list string :=
  match s with
  | EmptyString => [EmptyString]
  | String c rest =>
      if (c =? ",")%char
      then EmptyString :: split rest
      else match split rest with
           | [] => [String c EmptyString]
           | piece :: pieces => String c piece :: pieces
           end
  end.

(** [x && x.split(',') || []] *)
Definition splitIds (x : option string) : list string :=
  match x with
  | Some s => if truthy x then split s else []
  | None => []
  end.

(** The bound of the [most-recent] window: one local calendar day before
    [nowMs], at the one-second resolution of the date string
    ([toISOString().slice(0, 19)] drops the milliseconds). *)
Definition dayBefore (nowMs : Z) : Z :=
  (localDayBefore sv nowMs / 1000 * 1000)%Z.

Definition limitEpisodesQuerySize (nowMs : Z) (qb : QB.t) (shouldLimit : bool)
           (sort : string) : QB.t :=
  if shouldLimit then
    if sort =? "top-past-hour" then QB.andWhere CondPastHourPageviews qb
    else if sort =? "top-past-day" then QB.andWhere CondPastDayPageviews qb
    else if sort =? "top-past-week" then QB.andWhere CondPastWeekPageviews qb
    else if sort =? "top-past-month" then QB.andWhere CondPastMonthPageviews qb
    else if sort =? "top-past-year" then QB.andWhere CondPastYearPageviews qb
    else if sort =? "top-all-time" then QB.andWhere CondPastAllTimePageviews qb
    else if sort =? "most-recent" then QB.andWhere (CondPubDateAfter (dayBefore nowMs)) qb
    else qb
  else qb.

Definition generateEpisodeSelects (includePodcast : bool)
           (searchAllFieldsText : option string) : QB.t :=
  let text := match searchAllFieldsText with Some s => s | None => EmptyString end in
  QB.mk [InnerJoinPodcast includePodcast]
        [if negb (text =? EmptyString)
         then CondTitleLike (normalizeSearchText sv text)
         else CondTrue]
        None None None.

(** [x.description ? x.description.substr(0, 2500) : ''] *)
Definition truncateDescription (description : option string) : option string :=
  Some (if truthy description
        then match description with
             | Some d => substring 0 2500 d
             | None => EmptyString
             end
        else EmptyString).

Definition cleanEpisodes (episodes : list Episode.t) : list Episode.t :=
  map (fun x => Episode.set_description (truncateDescription (Episode.description x)) x)
      episodes.

(** ** Execution of a query plan by the storage engine

    A join with the podcast keeps the episodes whose podcast exists, a
    join with the categories those whose podcast has one of the
    categories; the count of [getManyAndCount] is the number of matching
    rows before pagination. *)

Definition memStr (x : string) (l : list string) : bool :=
  existsb (fun y => y =? x) l.

Definition evalCondition (c : Condition) (e : Episode.t) : bool :=
  match c with
  | CondTrue => true
  | CondTitleLike text => titleLike sv text (Episode.title e)
  | CondPastHourPageviews => (0 <? Episode.pastHourTotalUniquePageviews e)%Z
  | CondPastDayPageviews => (0 <? Episode.pastDayTotalUniquePageviews e)%Z
  | CondPastWeekPageviews => (0 <? Episode.pastWeekTotalUniquePageviews e)%Z
  | CondPastMonthPageviews => (0 <? Episode.pastMonthTotalUniquePageviews e)%Z
  | CondPastYearPageviews => (0 <? Episode.pastYearTotalUniquePageviews e)%Z
  | CondPastAllTimePageviews => (0 <? Episode.pastAllTimeTotalUniquePageviews e)%Z
  | CondPubDateAfter date => (date <? Episode.pubDate e)%Z
  | CondIsPublic => Episode.isPublic e
  | CondIdIn recentEpisodeIds => memStr (Episode.id e) recentEpisodeIds
  | CondPodcastIdIn podcastIds => memStr (Episode.podcastId e) podcastIds
  end.

Definition evalJoin (pods : list Podcast.t) (j : Join) (e : Episode.t) : bool :=
  match j with
  | InnerJoinPodcast _ =>
      existsb (fun p => Podcast.id p =? Episode.podcastId e) pods
  | InnerJoinCategories categoriesIds =>
      existsb (fun p => (Podcast.id p =? Episode.podcastId e)
                        && existsb (fun c => memStr c categoriesIds) (Podcast.categories p))
              pods
  end.

Definition satisfies (qb : QB.t) (w : World) (e : Episode.t) : bool :=
  forallb (fun j => evalJoin (podcasts w) j e) (QB.joins qb)
  && forallb (fun c => evalCondition c e) (QB.conditions qb).

Definition matchingEpisodes (qb : QB.t) (w : World) : list Episode.t :=
  filter (satisfies qb w) (episodes w).

(** [offset(skip)] and [limit(take)].  The query builder writes a
    [LIMIT] (an [OFFSET]) only for a truthy number: [limit(0)] is no limit
    at all. *)
Definition paginate {A} (offset limit : option nat) (rows : list A) : list A :=
  let rest := match offset with Some n => skipn n rows | None => rows end in
  match limit with
  | Some (S n) => firstn (S n) rest
  | Some O | None => rest
  end.

Definition pageOf (qb : QB.t) (w : World) : list Episode.t :=
  let rows := matchingEpisodes qb w in
  let ordered := match QB.orderBy qb with
                 | Some (column, dir) => orderRows sv column dir rows
                 | None => rows
                 end in
  paginate (QB.offset qb) (QB.limit qb) ordered.

(** [IN (:...ids)] with an empty array is written [IN ()], which the
    database rejects: the query fails with a [QueryFailedError]. *)
Definition queryFailedError : Exn :=
  Rejected "QueryFailedError: syntax error at or near )".

Definition isNil {A} (l : list A) : bool :=
  match l with
  | [] => true
  | _ :: _ => false
  end.

Definition hasEmptyIn (qb : QB.t) : bool :=
  existsb (fun c => match c with
                    | CondIdIn ids | CondPodcastIdIn ids => isNil ids
                    | _ => false
                    end) (QB.conditions qb)
  || existsb (fun j => match j with
                       | InnerJoinCategories ids => isNil ids
                       | InnerJoinPodcast _ => false
                       end) (QB.joins qb).

(** [getMany] and [getManyAndCount] on the episode table.  The entities
    are returned whole: the fixed projection of columns that
    [generateEpisodeSelects] selects is not modelled. *)
Definition getMany (qb : QB.t) : M (list Episode.t) :=
  fun w =>
    let w1 := record_event (EvEpisodeQuery qb) w in
    if hasEmptyIn qb then (Throws queryFailedError, w1)
    else (Returns (pageOf qb w), w1).

Definition getManyAndCount (qb : QB.t) : M (list Episode.t * nat) :=
  fun w =>
    let w1 := record_event (EvEpisodeQuery qb) w in
    if hasEmptyIn qb then (Throws queryFailedError, w1)
    else (Returns (pageOf qb w, List.length (matchingEpisodes qb w)), w1).

(** ** Recency Index Reader *)

(** [ORDER BY recentEpisode.pubDate DESC] *)
Fixpoint insertByPubDateDesc (r : RecentEpisode.t) (l : list RecentEpisode.t)
  : list RecentEpisode.t :=
  match l with
  | [] => [r]
  | x :: rest =>
      if (RecentEpisode.pubDate x <=? RecentEpisode.pubDate r)%Z
      then r :: l
      else x :: insertByPubDateDesc r rest
  end.

Definition orderByPubDateDesc (l : list RecentEpisode.t) : list RecentEpisode.t :=
  fold_right insertByPubDateDesc [] l.

Definition recentTable (type : string) (w : World) : list RecentEpisode.t :=
  if type =? "categoriesIds" then recentEpisodesByCategory w else recentEpisodesByPodcast w.

Definition recentMatches (type : string) (ids : list string) (w : World)
  : list RecentEpisode.t :=
  filter (fun r => memStr (RecentEpisode.groupId r) ids) (recentTable type w).

Definition recentPage (type : string) (ids : list string) (skip take : option nat)
           (w : World) : list RecentEpisode.t :=
  paginate skip take (orderByPubDateDesc (recentMatches type ids w)).

(** The read of the projection: [where(where, { ids })] with
    [offset(skip)], [limit(take)] and [getManyAndCount()].  The count is
    that of the matching rows before pagination; an empty [ids] is
    rejected by the storage. *)
Definition getRecentEpisodes (type : string) (ids : list string) (skip take : option nat)
  : M (list RecentEpisode.t * nat) :=
  fun w =>
    let w1 := record_event (EvRecentEpisodeQuery type ids) w in
    if isNil ids then (Throws queryFailedError, w1)
    else (Returns (recentPage type ids skip take w,
                   List.length (recentMatches type ids w)), w1).

(** ** Episode Listing Orchestrator *)

Definition handleMostRecentEpisodesQuery (qb : QB.t) (type : string) (ids : list string)
           (skip take : option nat) : M (list Episode.t * nat) :=
  recentEpisodesResult <- getRecentEpisodes type ids skip take ;;
  let totalCount := snd recentEpisodesResult in
  if (totalCount =? 0)%nat then ret ([], 0%nat)
  else
    let recentEpisodeIds := map RecentEpisode.episodeId (fst recentEpisodesResult) in
    if (List.length recentEpisodeIds <=? 0)%nat then ret ([], totalCount)
    else
      let qb := QB.andWhere (CondIdIn recentEpisodeIds) qb in
      episodes <- getMany qb ;;
      ret (cleanEpisodes episodes, totalCount).

Definition handleGetEpisodesWithOrdering (qb : QB.t) (query : Query.t)
           (skip : option nat) (sort : string) (take : option nat)
  : M (list Episode.t * nat) :=
  let qb := QB.set_offset skip qb in
  let qb := QB.set_limit take qb in
  let orderColumn := getQueryOrderColumn sv "episode" sort "pubDate" in
  let qb := if Query.sort query =? "random"
            then QB.set_orderBy (fst orderColumn) None qb
            else QB.set_orderBy (fst orderColumn) (Some (snd orderColumn)) qb in
  episodesResults <- getManyAndCount qb ;;
  ret (cleanEpisodes (fst episodesResults), snd episodesResults).

Definition getEpisodes (query : Query.t) : M (list Episode.t * nat) :=
  w <- getWorld ;;
  let qb := generateEpisodeSelects (Query.includePodcast query)
                                   (Query.searchAllFieldsText query) in
  let shouldLimit := true in
  let qb := limitEpisodesQuerySize (now w) qb shouldLimit (Query.sort query) in
  let qb := QB.andWhere CondIsPublic qb in
  handleGetEpisodesWithOrdering qb query (Query.skip query) (Query.sort query)
                                (Query.take query).

Definition getEpisodesByCategoryIds (query : Query.t) : M (list Episode.t * nat) :=
  w <- getWorld ;;
  let categoriesIds := splitIds (Query.categories query) in
  let qb := generateEpisodeSelects (Query.includePodcast query)
                                   (Query.searchAllFieldsText query) in
  if Query.sort query =? "most-recent"
  then handleMostRecentEpisodesQuery qb "categoriesIds" categoriesIds
                                     (Query.skip query) (Query.take query)
  else
    let qb := QB.innerJoin (InnerJoinCategories categoriesIds) qb in
    let shouldLimit := true in
    let qb := limitEpisodesQuerySize (now w) qb shouldLimit (Query.sort query) in
    let qb := QB.andWhere CondIsPublic qb in
    handleGetEpisodesWithOrdering qb query (Query.skip query) (Query.sort query)
                                  (Query.take query).

Definition getEpisodesByPodcastId (query : Query.t) (qb : QB.t) (podcastIds : list string)
  : M (list Episode.t * nat) :=
  let qb := QB.andWhere (CondPodcastIdIn podcastIds) qb in
  let qb := QB.andWhere CondIsPublic qb in
  handleGetEpisodesWithOrdering qb query (Query.skip query) (Query.sort query)
                                (Query.take query).

Definition getEpisodesByPodcastIds (query : Query.t) : M (list Episode.t * nat) :=
  w <- getWorld ;;
  let podcastIds := splitIds (Query.podcastId query) in
  let qb := generateEpisodeSelects (Query.includePodcast query)
                                   (Query.searchAllFieldsText query) in
  if (List.length podcastIds =? 1)%nat
  then getEpisodesByPodcastId query qb podcastIds
  else if Query.sort query =? "most-recent"
  then handleMostRecentEpisodesQuery qb "podcastIds" podcastIds
                                     (Query.skip query) (Query.take query)
  else
    let qb := QB.andWhere (CondPodcastIdIn podcastIds) qb in
    let shouldLimit := (10 <? List.length podcastIds)%nat in
    let qb := limitEpisodesQuerySize (now w) qb shouldLimit (Query.sort query) in
    let qb := QB.andWhere CondIsPublic qb in
    handleGetEpisodesWithOrdering qb query (Query.skip query) (Query.sort query)
                                  (Query.take query).

(** ** Dead-Episode Reaper *)

(** The predicate of the reaper's query: [isPublic = FALSE] and no media
    reference joined to the episode. *)
Definition isDead (refs : list MediaRef.t) (e : Episode.t) : bool :=
  negb (Episode.isPublic e)
  && negb (existsb (fun m => MediaRef.episodeId m =? Episode.id e) refs).

Definition deadEpisodesOf (w : World) : list Episode.t :=
  filter (isDead (mediaRefs w)) (episodes w).

Definition getDeadEpisodes : M (list string) :=
  fun w =>
    let episodes := firstn 100 (map Episode.id (deadEpisodesOf w)) in
    (Returns episodes,
     record_event (EvLogCount "dead episode count:" (List.length episodes)) w).

(** [repository.remove(episode)] *)
Definition repositoryRemove (id : string) : M unit :=
  fun w =>
    (Returns tt,
     record_event (EvEpisodeRemove id)
                  (set_episodes (filter (fun e => negb (Episode.id e =? id)) (episodes w)) w)).

Definition removeEpisodes (episodes : list string) : M unit :=
  forOf episodes repositoryRemove.

(** [await new Promise(r => setTimeout(r, ms))] *)
Definition sleep (ms : Z) : M unit :=
  fun w => (Returns tt, set_now (now w + ms)%Z w).

Definition removeDeadEpisodes : M bool :=
  deadEpisodes <- getDeadEpisodes ;;
  removeEpisodes deadEpisodes ;;
  sleep 1000 ;;
  let shouldContinue := (List.length deadEpisodes =? 100)%nat in
  ret shouldContinue.

End Controller.

(** ** The media-reference controller *)

Module SpecModel.

(** [Object.assign(mediaRef, obj)]: the keys present in [obj] overwrite
    the stored fields. *)
Definition assign (obj : MediaRefPatch.t) (m : MediaRef.t) : MediaRef.t :=
  let orElse {A} (o : option A) (d : A) := match o with Some v => v | None => d end in
  MediaRef.mk (MediaRef.id m)
              (orElse (MediaRefPatch.episodeId obj) (MediaRef.episodeId m))
              (orElse (MediaRefPatch.startTime obj) (MediaRef.startTime m))
              (MediaRef.endTime m)
              (orElse (MediaRefPatch.title obj) (MediaRef.title m))
              (orElse (MediaRefPatch.imageUrl obj) (MediaRef.imageUrl m))
              (orElse (MediaRefPatch.linkUrl obj) (MediaRef.linkUrl m))
              (orElse (MediaRefPatch.isOfficialChapter obj) (MediaRef.isOfficialChapter m))
              (orElse (MediaRefPatch.isPublic obj) (MediaRef.isPublic m))
              (MediaRef.owner m).

(** Modelled from the spec: [updateMediaRef] of the media-reference
    controller is imported by the episode controller but its source is
    not available.  The spec has the synchronizer "update its fields"
    and "mark it non-public" through it: the stored media reference with
    the given [id] takes the fields of [obj]; a missing reference is an
    error. *)
Definition updateMediaRef (obj : MediaRefPatch.t) (loggedInUserId : string)
           (rows : list MediaRef.t) : Exn + list MediaRef.t :=
  if existsb (fun m => MediaRef.id m =? MediaRefPatch.id obj) rows
  then inr (map (fun m => if MediaRef.id m =? MediaRefPatch.id obj then assign obj m else m)
                rows)
  else inl (Rejected "MediaRef not found").

(** Modelled from the spec: [createMediaRef] of the media-reference
    controller, whose source is not available either.  The spec has the
    synchronizer "create a new official, public media reference owned by
    a system/super-user identity": a row with the fields of [obj] is
    added under the identifier [generateId] picks. *)
Definition createMediaRef (generateId : list MediaRef.t -> string) (obj : NewMediaRef.t)
           (rows : list MediaRef.t) : Exn + list MediaRef.t :=
  inr (rows ++ [MediaRef.mk (generateId rows)
                            (NewMediaRef.episodeId obj)
                            (NewMediaRef.startTime obj)
                            None
                            (NewMediaRef.title obj)
                            (NewMediaRef.imageUrl obj)
                            (NewMediaRef.linkUrl obj)
                            (NewMediaRef.isOfficialChapter obj)
                            (NewMediaRef.isPublic obj)
                            (NewMediaRef.owner obj)]).

(** An identifier that no stored row carries: longer than all of them. *)
Definition longerId (rows : list MediaRef.t) : string :=
  fold_right (fun m acc => String "x" (if String.length acc <? String.length (MediaRef.id m)
                                        then MediaRef.id m else acc))%nat
             "x" rows.

End SpecModel.

(** ** Observations on traces *)

(** The URLs fetched, in order. *)
Definition requestsOf (tr : list Event) : list string :=
  flat_map (fun ev => match ev with EvRequest url => [url] | _ => [] end) tr.

(** The [startTime] of every chapter handed to [updateMediaRef] or
    [createMediaRef], in order. *)
Definition attemptedStartTimes (tr : list Event) : list Z :=
  flat_map (fun ev =>
              match ev with
              | EvUpdateMediaRef obj _ =>
                  match MediaRefPatch.startTime obj with Some t => [t] | None => [] end
              | EvCreateMediaRef obj => [NewMediaRef.startTime obj]
              | _ => []
              end) tr.

(** The plans executed against the episode table, in order. *)
Definition episodeQueriesOf (tr : list Event) : list QB.t :=
  flat_map (fun ev => match ev with EvEpisodeQuery qb => [qb] | _ => [] end) tr.

(** The conditions [limitEpisodesQuerySize] can add. *)
Definition isLimiting (c : Condition) : bool :=
  match c with
  | CondPastHourPageviews | CondPastDayPageviews | CondPastWeekPageviews
  | CondPastMonthPageviews | CondPastYearPageviews | CondPastAllTimePageviews
  | CondPubDateAfter _ => true
  | _ => false
  end.

Definition isPublicCondition (c : Condition) : bool :=
  match c with
  | CondIsPublic => true
  | _ => false
  end.

Definition limitingApplied (tr : list Event) : bool :=
  existsb (fun qb => existsb isLimiting (QB.conditions qb)) (episodeQueriesOf tr).

(** The six popularity sorts. *)
Definition isTopSort (sort : string) : bool :=
  (sort =? "top-past-hour") || (sort =? "top-past-day") || (sort =? "top-past-week")
  || (sort =? "top-past-month") || (sort =? "top-past-year") || (sort =? "top-all-time").

Definition episodeExists (id : string) (w : World) : bool :=
  existsb (fun e => Episode.id e =? id) (episodes w).

Definition isThrows {A} (o : Outcome A) : bool :=
  match o with
  | Throws _ => true
  | Returns _ => false
  end.


(** What the loop over [newChapters] may add to the trace: calls of the
    media-reference controller and its own log line. *)
Definition isNewChapterEvent (ev : Event) : Prop :=
  match ev with
  | EvUpdateMediaRef _ _ | EvCreateMediaRef _ => True
  | EvLog label _ => label = "retrieveLatestChapters newChapter"
  | _ => False
  end.

(** The [startTime] of the chapter a call of the media-reference
    controller is about. *)
Definition chapterOfCall (ev : Event) : option Z :=
  match ev with
  | EvUpdateMediaRef obj _ => MediaRefPatch.startTime obj
  | EvCreateMediaRef obj => Some (NewMediaRef.startTime obj)
  | _ => None
  end.

(** What the media-reference controller answers to a call on the table
    [rows]. *)
Definition answerOf (sv : Services) (rows : list MediaRef.t) (ev : Event)
  : option (Exn + list MediaRef.t) :=
  match ev with
  | EvUpdateMediaRef obj loggedInUserId => Some (updateMediaRef sv obj loggedInUserId rows)
  | EvCreateMediaRef obj => Some (createMediaRef sv obj rows)
  | _ => None
  end.

(** Remote chapters processed in isolation, as the spec words it: one turn
    per chapter of the document, in order.  A turn is one call of the
    media-reference controller for that chapter; a call that succeeds
    leaves its table behind, a call that fails leaves the table as it was
    and is followed by one log line of its own that carries the error; in
    both cases the next chapter has its turn. *)
Inductive IsolatedTurns (sv : Services)
  : list MediaRef.t -> list RemoteChapter.t -> list Event -> list MediaRef.t -> Prop :=
| turns_done rows : IsolatedTurns sv rows [] [] rows
| turn_succeeded rows rows' final newChapter rest call evs :
    chapterOfCall call = Some (RemoteChapter.startTime newChapter) ->
    answerOf sv rows call = Some (inr rows') ->
    IsolatedTurns sv rows' rest evs final ->
    IsolatedTurns sv rows (newChapter :: rest) (call :: evs) final
| turn_failed rows final newChapter rest call error evs :
    chapterOfCall call = Some (RemoteChapter.startTime newChapter) ->
    answerOf sv rows call = Some (inl error) ->
    IsolatedTurns sv rows rest evs final ->
    IsolatedTurns sv rows (newChapter :: rest)
                  (call :: EvLog "retrieveLatestChapters newChapter" error :: evs) final.

(** The row an update through the spec's [updateMediaRef] leaves behind. *)
Definition patchRow (obj : MediaRefPatch.t) (m : MediaRef.t) : MediaRef.t :=
  if MediaRef.id m =? MediaRefPatch.id obj then SpecModel.assign obj m else m.

(** Reconciliation in which no failure stops the remaining chapters, as
    the spec words it: every suppressed and every remote chapter of the
    invocation reaches the media-reference controller. *)
Definition everyChapterAttempted (sv : Services) (id : string) (w : World)
           (newChapters : list RemoteChapter.t) : Prop :=
  let existingChapters :=
    map (fun m => RawChapter.mk (MediaRef.id m) (MediaRef.isOfficialChapter m)
                                (MediaRef.startTime m))
        (filter MediaRef.isOfficialChapter (mediaRefs w)) in
  attemptedStartTimes (trace (snd (retrieveLatestChapters sv id w)))
  = attemptedStartTimes (trace w)
    ++ map RawChapter.startTime (deadChaptersOf existingChapters newChapters)
    ++ map RemoteChapter.startTime newChapters.

(** The episodes a listing call returned. *)
Definition episodesOf (r : Outcome (list Episode.t * nat) * World) : list Episode.t :=
  match fst r with
  | Returns (episodes, _) => episodes
  | Throws _ => []
  end.

(** The plans a call executed against the episode table, given the world
    it started from. *)
Definition newEpisodeQueries {A} (w : World) (r : Outcome A * World) : list QB.t :=
  skipn (List.length (episodeQueriesOf (trace w))) (episodeQueriesOf (trace (snd r))).

Definition hasPublicCondition (qb : QB.t) : bool :=
  existsb isPublicCondition (QB.conditions qb).

Definition hasLimitingCondition (qb : QB.t) : bool :=
  existsb isLimiting (QB.conditions qb).

(** What [cleanEpisodes] makes of one episode. *)
Definition cleaned (e : Episode.t) : Episode.t :=
  Episode.set_description (truncateDescription (Episode.description e)) e.

Definition allPublic (rows : list Episode.t) : Prop :=
  Forall (fun e => Episode.isPublic e = true) rows.

(** A listing call that restricts its results to public episodes: every
    plan it executes carries the public-visibility condition and every
    episode it returns is public. *)
Definition restrictsToPublic (w : World) (r : Outcome (list Episode.t * nat) * World) : Prop :=
  Forall (fun qb => hasPublicCondition qb = true) (newEpisodeQueries w r)
  /\ allPublic (episodesOf r).

(** A listing call on the recency-index-assisted path for the grouping
    [type] and [ids]: no plan it executes carries the public-visibility
    condition, and every episode of the table, public or not, that the
    base plan [qb] accepts and whose id is on the requested page of the
    projection is returned. *)
Definition returnsProjectedEpisodes (sv : Services) (qb : QB.t) (type : string)
           (ids : list string) (skip take : option nat) (w : World)
           (r : Outcome (list Episode.t * nat) * World) : Prop :=
  Forall (fun qb' => hasPublicCondition qb' = false) (newEpisodeQueries w r)
  /\ forall e,
      In e (episodes w) ->
      satisfies sv qb w e = true ->
      In (Episode.id e) (map RecentEpisode.episodeId (recentPage type ids skip take w)) ->
      In (cleaned e) (episodesOf r).

(** ** Worlds a run can leave behind *)

(** A relation between the world before and the world after that a
    computation maintains, whatever its outcome. *)
Definition keeps {A} (R : World -> World -> Prop) (m : M A) : Prop :=
  forall w, R w (snd (m w)).

(** The episode table and the clock are left alone. *)
Definition sameCatalog (w w' : World) : Prop :=
  episodes w' = episodes w /\ now w' = now w.

(** What the remote sync leaves in the episode table: the stamp written
    before the fetch, and nothing else. *)
Definition stamped (episodeId : string) (stamp : Z) (rows : list Episode.t) : list Episode.t :=
  map (fun e => if Episode.id e =? episodeId
                then Episode.set_chaptersUrlLastParsed (Some stamp) e
                else e) rows.

(** The world after the guarded remote sync of [retrieveLatestChapters]. *)
Definition afterSync (sv : Services) (id : string) (episode : Episode.t) (w : World) : World :=
  if shouldSync (now w) (Episode.chaptersUrl episode) (Episode.chaptersUrlLastParsed episode)
  then snd (tryCatch (remoteSync sv (Episode.id episode)
                                 (match Episode.chaptersUrl episode with
                                  | Some u => u
                                  | None => EmptyString
                                  end) id)
                     (consoleLog "retrieveLatestChapters request") w)
  else w.

Definition storedChapters (id : string) (w : World) : list MediaRef.t * nat :=
  (orderByStartTime (officialChaptersOf id (mediaRefs w)),
   List.length (officialChaptersOf id (mediaRefs w))).

(** ** Fixtures for concrete runs *)

Module Fixture.

Definition chaptersUrl : string := "https://feeds.example.org/ep1/chapters.json".

(** A remote whose document lists the single chapter
    [{startTime: 10, title: "A"}], in front of the given media-reference
    controller. *)
Definition servicesWith
           (update : MediaRefPatch.t -> string -> list MediaRef.t -> Exn + list MediaRef.t)
           (create : NewMediaRef.t -> list MediaRef.t -> Exn + list MediaRef.t) : Services :=
  mkServices "superUser"
             (fun url => if url =? chaptersUrl then inr "doc" else inl (Rejected "ENOTFOUND"))
             (fun response => if response =? "doc"
                              then inr (Chapters [RemoteChapter.mk 10%Z "A" None None])
                              else inl (Rejected "Unexpected token"))
             update create
             (fun _ _ column => (String.append "episode." column, DESC))
             (fun _ _ => true)
             (fun text => text)
             (fun _ _ rows => rows)
             (fun t => (t - 24 * 60 * 60 * 1000)%Z).

Definition services : Services :=
  servicesWith SpecModel.updateMediaRef (SpecModel.createMediaRef SpecModel.longerId).

(** A media-reference controller whose storage rejects every write to the
    row ["c20"]. *)
Definition flakyServices : Services :=
  servicesWith (fun obj user rows =>
                  if MediaRefPatch.id obj =? "c20"
                  then inl (Rejected "connection terminated")
                  else SpecModel.updateMediaRef obj user rows)
               (SpecModel.createMediaRef SpecModel.longerId).

Definition episode (id podcastId : string) (isPublic : bool) (url : option string)
           (lastParsed : option Z) : Episode.t :=
  Episode.mk id podcastId (String.append "Episode " id) (Some "notes") isPublic 1000%Z
             0%Z 0%Z 0%Z 0%Z 0%Z 0%Z url lastParsed.

Definition chapter (id episodeId : string) (startTime : Z) (title : string) : MediaRef.t :=
  MediaRef.mk id episodeId startTime None title None None true true "superUser".

Definition hour : Z := (60 * 60 * 1000)%Z.
Definition clock : Z := 1700000000000%Z.

Definition world (eps : list Episode.t) (refs : list MediaRef.t) : World :=
  mkWorld eps refs [Podcast.mk "pod1" ["cat1"]] [] [] clock [].

(** Episode [ep1] was last parsed a full day ago; its stored chapter is
    out of date. *)
Definition staleWorld : World :=
  world [episode "ep1" "pod1" true (Some chaptersUrl) (Some (clock - 24 * hour)%Z)]
        [chapter "c10" "ep1" 10%Z "Old"].

(** Episode [ep1] was never parsed; the other official chapter in the
    table belongs to episode [ep2]. *)
Definition twoEpisodesWorld : World :=
  world [episode "ep1" "pod1" true (Some chaptersUrl) None;
         episode "ep2" "pod1" true None None]
        [chapter "c10" "ep1" 10%Z "Old"; chapter "c20" "ep2" 20%Z "B"].

(** The scenario of the spec: local official chapters at 10 and 20. *)
Definition scenarioWorld : World :=
  world [episode "ep1" "pod1" true (Some chaptersUrl) None]
        [chapter "c10" "ep1" 10%Z "Old"; chapter "c20" "ep1" 20%Z "B"].

(** The scenario of the spec in a table that also holds an official
    chapter of episode [ep2] at 10, stored before the chapters of [ep1]. *)
Definition sharedStartTimeWorld : World :=
  world [episode "ep1" "pod1" true (Some chaptersUrl) None;
         episode "ep2" "pod1" true None None]
        [chapter "c0" "ep2" 10%Z "Other";
         chapter "c10" "ep1" 10%Z "Old";
         chapter "c20" "ep1" 20%Z "B"].

(** Two local chapters the remote document no longer lists, and none at 10. *)
Definition twoDeadChaptersWorld : World :=
  world [episode "ep1" "pod1" true (Some chaptersUrl) None]
        [chapter "c20" "ep1" 20%Z "B"; chapter "c30" "ep1" 30%Z "C"].



(** A non-public episode that the recency projections list under podcast
    [pod1] and category [cat1]. *)
Definition hiddenEpisode : Episode.t := episode "ep2" "pod1" false None None.

Definition recencyWorld : World :=
  mkWorld [episode "ep1" "pod1" true None None; hiddenEpisode] []
          [Podcast.mk "pod1" ["cat1"]]
          [RecentEpisode.mk "ep2" "cat1" 1000%Z]
          [RecentEpisode.mk "ep2" "pod1" 1000%Z]
          clock [].

Definition query (sort : string) (categories podcastId : option string) : Query.t :=
  Query.mk false None (Some 0%nat) (Some 20%nat) sort categories podcastId.

Definition elevenPodcasts : string := "pod1,p2,p3,p4,p5,p6,p7,p8,p9,p10,p11".

End Fixture.

(** ** Episode lookup: [getEpisode] *)

(** [repository.findOne({ isPublic: true, podcastId, title })] *)
Definition findPublicVersion (episode : Episode.t) (w : World) : option Episode.t :=
  find (fun e => Episode.isPublic e
                 && (Episode.podcastId e =? Episode.podcastId episode)
                 && (Episode.title e =? Episode.title episode))
       (episodes w).

(** [getEpisode] only reads: it is a function of the world that gives the
    episode or the error thrown.  The relations loaded with the entity are
    not modelled. *)
Definition getEpisode (id : string) (w : World) : HttpError + Episode.t :=
  match find (fun e => Episode.id e =? id) (episodes w) with
  | None => inl (NotFound "Episode not found")
  | Some episode =>
      if negb (Episode.isPublic episode)
      then match findPublicVersion episode w with
           | Some publicEpisode => inr publicEpisode
           | None => inr episode
           end
      else inr episode
  end.

(** ** User controller: [getUser] and [deleteUser]

    The [User] entity is declared outside the sources at hand: users are
    the values of an arbitrary type with an [id] column, and the user
    table is a list of them. *)
Section Users.
Variable User : Type.
Variable userId : User -> string.

(** [repository.findOne({ id })] *)
Definition findOneUser (id : string) (users : list User) : option User :=
  find (fun u => userId u =? id) users.

(** [deleteUser] gives the error thrown, or the removed entity and the
    table [repository.remove(user)] leaves behind. *)
Definition deleteUser (id : string) (users : list User) : HttpError + (User * list User) :=
  match findOneUser id users with
  | None => inl (NotFound "User not found")
  | Some user =>
      inr (user, filter (fun u => negb (userId u =? userId user)) users)
  end.

(** In [getUser] the promise of [findOne] is not awaited before the test
    [if (!user)]: a promise is truthy, the test never fires, and the
    function resolves to what the promise resolves to, the entity or
    [undefined]. *)
Definition getUser (id : string) (users : list User) : HttpError + option User :=
  let user := findOneUser id users in
  let userPromiseIsFalsy := false in
  if userPromiseIsFalsy
  then inl (NotFound "User not found")
  else inr user.

End Users.

(** ** Observations for the further properties *)

(** The number of commas of a string. *)
Fixpoint countCommas (s : string) : nat :=
  match s with
  | EmptyString => 0
  | String c rest => (if (c =? ",")%char then 1 else 0) + countCommas rest
  end.

(** The window of a sort, read on an episode: pageviews in the period for
    the six popularity sorts; for [most-recent], a publication date later
    than the whole second of the instant one local calendar day before
    [nowMs]. *)
Definition inWindow (sv : Services) (nowMs : Z) (sort : string) (e : Episode.t) : bool :=
  if sort =? "top-past-hour" then (0 <? Episode.pastHourTotalUniquePageviews e)%Z
  else if sort =? "top-past-day" then (0 <? Episode.pastDayTotalUniquePageviews e)%Z
  else if sort =? "top-past-week" then (0 <? Episode.pastWeekTotalUniquePageviews e)%Z
  else if sort =? "top-past-month" then (0 <? Episode.pastMonthTotalUniquePageviews e)%Z
  else if sort =? "top-past-year" then (0 <? Episode.pastYearTotalUniquePageviews e)%Z
  else if sort =? "top-all-time" then (0 <? Episode.pastAllTimeTotalUniquePageviews e)%Z
  else if sort =? "most-recent"
  then (localDayBefore sv nowMs / 1000 * 1000 <? Episode.pubDate e)%Z
  else true.

(** A description as list views carry it: present, and of at most 2500
    characters. *)
Definition descriptionBounded (e : Episode.t) : Prop :=
  exists d, Episode.description e = Some d /\ (String.length d <= 2500)%nat.

(** The number a listing call returned with its page. *)
Definition countOf (r : Outcome (list Episode.t * nat) * World) : nat :=
  match fst r with
  | Returns (_, count) => count
  | Throws _ => 0%nat
  end.

(** The reads of the recency projections, in order. *)
Definition recentQueriesOf (tr : list Event) : list (string * list string) :=
  flat_map (fun ev => match ev with
                      | EvRecentEpisodeQuery type ids => [(type, ids)]
                      | _ => []
                      end) tr.

(** The remote chapters document of a URL: what the fetch and the parse
    give together. *)
Definition documentOf (sv : Services) (url : string) : Exn + ChaptersField :=
  match request sv url with
  | inl e => inl e
  | inr response => parseChapters sv response
  end.

(** What a run of the synchronizer for episode [id] may add to the trace,
    given the identifiers [officialIds] of the official chapters in
    storage: the stamp and the fetch, log lines, updates of official
    chapters in the name of the super user, and creations of public
    official chapters of that episode owned by the super user. *)
Definition isSynchronizerEvent (sv : Services) (id : string) (officialIds : list string)
           (ev : Event) : Prop :=
  match ev with
  | EvRequest _ | EvEpisodeUpdate _ _ | EvLog _ _ => True
  | EvUpdateMediaRef obj loggedInUserId =>
      In (MediaRefPatch.id obj) officialIds /\ loggedInUserId = superUserId sv
  | EvCreateMediaRef obj =>
      NewMediaRef.isOfficialChapter obj = true
      /\ NewMediaRef.isPublic obj = true
      /\ NewMediaRef.episodeId obj = id
      /\ NewMediaRef.owner obj = superUserId sv
  | _ => False
  end.

(** The trace grows by events that all satisfy [P]. *)
Definition addsOnly (P : Event -> Prop) (w w' : World) : Prop :=
  exists evs, trace w' = trace w ++ evs /\ Forall P evs.

(** The media-reference table is left alone and its controller is not
    called. *)
Definition sameMediaRefs (w w' : World) : Prop :=
  mediaRefs w' = mediaRefs w
  /\ attemptedStartTimes (trace w') = attemptedStartTimes (trace w).

(** Episode ids are a primary key. *)
Definition uniqueEpisodeIds (w : World) : Prop :=
  NoDup (map Episode.id (episodes w)).

(** No fetch is added to the trace. *)
Definition sameRequests (w w' : World) : Prop :=
  requestsOf (trace w') = requestsOf (trace w).

(** The fetches a run of the synchronizer for [id] should make on [w]:
    one, of the episode's [chaptersUrl], when the episode exists, the URL
    is not empty and [chaptersUrlLastParsed] is unset or later than twelve
    hours from now; none otherwise. *)
Definition expectedRequests (id : string) (w : World) : list string :=
  match find (fun e => Episode.id e =? id) (episodes w) with
  | Some episode =>
      match Episode.chaptersUrl episode with
      | Some url =>
          if url =? EmptyString then []
          else match Episode.chaptersUrlLastParsed episode with
               | None => [url]
               | Some lastParsed =>
                   if (now w + 43200000 <? lastParsed)%Z then [url] else []
               end
      | None => []
      end
  | None => []
  end.

(** ** Further fixtures *)

Module Samples.

(** A retired episode and the episode that replaced it in the feed. *)
Definition retiredEpisode : Episode.t :=
  Episode.mk "old" "pod1" "The pilot" (Some "notes") false 1000%Z
             0%Z 0%Z 0%Z 0%Z 0%Z 0%Z None None.

Definition republishedEpisode : Episode.t :=
  Episode.mk "new" "pod1" "The pilot" (Some "notes") true 2000%Z
             0%Z 0%Z 0%Z 0%Z 0%Z 0%Z None None.

Definition republishedWorld : World :=
  Fixture.world [retiredEpisode; republishedEpisode] [].

(** An episode whose chapters document cannot be fetched. *)
Definition unreachableUrl : string := "https://gone.example.org/chapters.json".

Definition unreachableWorld : World :=
  Fixture.world [Fixture.episode "ep1" "pod1" true (Some unreachableUrl) None]
                [Fixture.chapter "c10" "ep1" 10%Z "Old"].

(** Two podcasts with one episode each on the recency projection. *)
Definition busyWorld : World :=
  mkWorld [Fixture.episode "ep1" "pod1" true None None;
           Fixture.episode "ep2" "pod2" true None None]
          []
          [Podcast.mk "pod1" ["cat1"]; Podcast.mk "pod2" ["cat1"]]
          []
          [RecentEpisode.mk "ep1" "pod1" 1000%Z; RecentEpisode.mk "ep2" "pod2" 2000%Z]
          Fixture.clock [].

(** An episode with listeners in the past week, a non-public one with
    listeners too, one published an hour ago, and one without listeners
    published long ago. *)
Definition popularEpisode : Episode.t :=
  Episode.mk "hit" "pod1" "The hit" (Some "notes") true 1000%Z
             0%Z 0%Z 5%Z 5%Z 5%Z 5%Z None None.

Definition withdrawnEpisode : Episode.t :=
  Episode.mk "withdrawn" "pod1" "The cut" (Some "notes") false 1000%Z
             0%Z 0%Z 7%Z 7%Z 7%Z 7%Z None None.

Definition freshEpisode : Episode.t :=
  Episode.mk "fresh" "pod1" "The news" (Some "notes") true (Fixture.clock - Fixture.hour)%Z
             0%Z 0%Z 0%Z 0%Z 0%Z 0%Z None None.

Definition popularWorld : World :=
  Fixture.world [Fixture.episode "quiet" "pod1" true None None;
                 popularEpisode; withdrawnEpisode; freshEpisode]
                [].

(** A non-public episode that still has a media reference, next to one
    that has none. *)
Definition keptWorld : World :=
  Fixture.world [Fixture.episode "kept" "pod1" false None None;
                 Fixture.episode "lost" "pod1" false None None;
                 Fixture.episode "live" "pod1" true None None]
                [Fixture.chapter "c10" "kept" 10%Z "Intro"].

End Samples.

(** * Properties *)

(** ** The monad *)

Lemma fst_tryCatch_log (m : M unit) (label : string) (w : World) :
  fst (tryCatch m (consoleLog label) w) = Returns tt.
Proof.
  unfold tryCatch, consoleLog, emit.
  destruct (m w) as [[[]|e] w1]; reflexivity.
Qed.

(** Computations that maintain a reflexive and transitive relation
    compose. *)
Section Frame.
Variable R : World -> World -> Prop.
Hypothesis R_refl : forall w, R w w.
Hypothesis R_trans : forall w1 w2 w3, R w1 w2 -> R w2 w3 -> R w1 w3.

Lemma keeps_ret {A} (a : A) : keeps R (ret a).
Proof. intros w; apply R_refl. Qed.

Lemma keeps_bind {A B} (m : M A) (k : A -> M B) :
  keeps R m -> (forall a, keeps R (k a)) -> keeps R (bind m k).
Proof.
  intros Hm Hk w. unfold bind.
  specialize (Hm w). destruct (m w) as [[a|e] w1]; simpl in *.
  - eapply R_trans; [exact Hm | apply Hk].
  - exact Hm.
Qed.

Lemma keeps_tryCatch {A} (m : M A) (h : Exn -> M A) :
  keeps R m -> (forall e, keeps R (h e)) -> keeps R (tryCatch m h).
Proof.
  intros Hm Hh w. unfold tryCatch.
  specialize (Hm w). destruct (m w) as [[a|e] w1]; simpl in *.
  - exact Hm.
  - eapply R_trans; [exact Hm | apply Hh].
Qed.

Lemma keeps_forOf {A} (xs : list A) (body : A -> M unit) :
  (forall x, keeps R (body x)) -> keeps R (forOf xs body).
Proof.
  intros Hb. induction xs as [|x rest IH]; simpl.
  - apply keeps_ret.
  - apply keeps_bind; [apply Hb | intros _; exact IH].
Qed.

End Frame.

Lemma sameCatalog_refl w : sameCatalog w w.
Proof. split; reflexivity. Qed.

Lemma sameCatalog_trans w1 w2 w3 :
  sameCatalog w1 w2 -> sameCatalog w2 w3 -> sameCatalog w1 w3.
Proof. intros [H1 H2] [H3 H4]; split; congruence. Qed.

Ltac frame_step :=
  first [ apply (keeps_bind sameCatalog sameCatalog_trans); [ | intros ? ]
        | apply (keeps_tryCatch sameCatalog sameCatalog_trans); [ | intros ? ]
        | apply (keeps_forOf sameCatalog sameCatalog_refl sameCatalog_trans); intros ?
        | apply (keeps_ret sameCatalog sameCatalog_refl) ].

Section SynchronizerFacts.
Variable sv : Services.

Lemma callUpdateMediaRef_catalog obj user : keeps sameCatalog (callUpdateMediaRef sv obj user).
Proof.
  intros w. unfold callUpdateMediaRef.
  destruct (updateMediaRef sv obj user _); split; reflexivity.
Qed.

Lemma callCreateMediaRef_catalog obj : keeps sameCatalog (callCreateMediaRef sv obj).
Proof.
  intros w. unfold callCreateMediaRef.
  destruct (createMediaRef sv obj _); split; reflexivity.
Qed.

Lemma consoleLog_catalog label e : keeps sameCatalog (consoleLog label e).
Proof. intros w; split; reflexivity. Qed.

Lemma reconcileNewChapter_catalog existing id nc :
  keeps sameCatalog (reconcileNewChapter sv existing id nc).
Proof.
  unfold reconcileNewChapter.
  destruct (find _ existing) as [x|];
    [destruct (negb _)|];
    auto using callUpdateMediaRef_catalog, callCreateMediaRef_catalog.
Qed.

Lemma suppressDeadChapters_catalog dead : keeps sameCatalog (suppressDeadChapters sv dead).
Proof.
  unfold suppressDeadChapters. frame_step. apply callUpdateMediaRef_catalog.
Qed.

Lemma syncNewChapters_catalog existing id ncs :
  keeps sameCatalog (syncNewChapters sv existing id ncs).
Proof.
  unfold syncNewChapters. frame_step. frame_step.
  - apply reconcileNewChapter_catalog.
  - apply consoleLog_catalog.
Qed.

Lemma remoteSync_catalog episodeId url id w :
  let w' := snd (remoteSync sv episodeId url id w) in
  episodes w' = stamped episodeId (now w) (episodes w) /\ now w' = now w.
Proof.
  unfold remoteSync. unfold bind at 1. simpl.
  set (w0 := record_event _ _).
  assert (Hrest : forall m : M unit, keeps sameCatalog m ->
                   episodes (snd (m w0)) = stamped episodeId (now w) (episodes w)
                   /\ now (snd (m w0)) = now w).
  { intros m Hm. destruct (Hm w0) as [He Hn]. rewrite He, Hn. split; reflexivity. }
  apply Hrest.
  frame_step.
  { intros w1. unfold callRequest. destruct (request sv url); split; reflexivity. }
  frame_step.
  { intros w1. unfold callParse. destruct (parseChapters sv a); split; reflexivity. }
  destruct a0 as [|newChapters].
  - frame_step.
  - frame_step.
    { intros w1; split; reflexivity. }
    frame_step.
    + apply suppressDeadChapters_catalog.
    + apply syncNewChapters_catalog.
Qed.

Lemma retrieveLatestChapters_found id w episode :
  find (fun e => Episode.id e =? id) (episodes w) = Some episode ->
  retrieveLatestChapters sv id w
  = (Returns (storedChapters id (afterSync sv id episode w)), afterSync sv id episode w).
Proof.
  intros Hfind.
  unfold retrieveLatestChapters, afterSync, bind, getRawOneEpisode, getWorld. simpl.
  rewrite Hfind.
  destruct (shouldSync _ _ _).
  - pose proof (fst_tryCatch_log
                  (remoteSync sv (Episode.id episode)
                              (match Episode.chaptersUrl episode with
                               | Some u => u | None => EmptyString end) id)
                  "retrieveLatestChapters request" w) as Hret.
    destruct (tryCatch _ _ w) as [r w1]. simpl in Hret. subst r. reflexivity.
  - reflexivity.
Qed.

Lemma retrieveLatestChapters_missing id w :
  find (fun e => Episode.id e =? id) (episodes w) = None ->
  retrieveLatestChapters sv id w = (Throws (JsError "Episode not found"), w).
Proof.
  intros Hfind.
  unfold retrieveLatestChapters, bind, getRawOneEpisode. simpl.
  now rewrite Hfind.
Qed.

Lemma afterSync_catalog id episode w :
  now (afterSync sv id episode w) = now w
  /\ (episodes (afterSync sv id episode w)
      = if shouldSync (now w) (Episode.chaptersUrl episode)
                      (Episode.chaptersUrlLastParsed episode)
        then stamped (Episode.id episode) (now w) (episodes w)
        else episodes w).
Proof.
  unfold afterSync. destruct (shouldSync _ _ _); [|split; reflexivity].
  unfold tryCatch.
  pose proof (remoteSync_catalog (Episode.id episode)
                (match Episode.chaptersUrl episode with Some u => u | None => EmptyString end)
                id w) as [He Hn].
  destruct (remoteSync _ _ _ _ w) as [[[]|e] w1]; simpl in *; auto.
Qed.

End SynchronizerFacts.

(** ** Lists and orderings *)

Lemma find_map_preserving {A} (p : A -> bool) (f : A -> A) (l : list A) :
  (forall x, p (f x) = p x) ->
  find p (map f l) = option_map f (find p l).
Proof.
  intros Hp. induction l as [|x l IH]; simpl; [reflexivity|].
  rewrite Hp. destruct (p x); [reflexivity | exact IH].
Qed.

Lemma existsb_find {A} (p : A -> bool) (l : list A) :
  existsb p l = isSome (find p l).
Proof.
  induction l as [|x l IH]; simpl; [reflexivity|].
  destruct (p x); [reflexivity | exact IH].
Qed.





(** ** The freshness guard *)

Lemma shouldSync_true_iff nowMs url lastParsed :
  shouldSync nowMs url lastParsed = true
  <-> truthy url = true
      /\ (lastParsed = None
          \/ exists t, lastParsed = Some t /\ (nowMs + 43200000 < t)%Z).
Proof.
  unfold shouldSync. rewrite andb_true_iff, orb_true_iff.
  destruct lastParsed as [t|]; simpl.
  - rewrite Z.ltb_lt. split.
    + intros [Hu [Hc|Hlt]]; [discriminate|].
      split; [exact Hu|]. right. exists t. split; [reflexivity | lia].
    + intros [Hu [Hc|[t' [Ht Hlt]]]]; [discriminate|].
      injection Ht as <-. split; [exact Hu|]. right. lia.
  - split; intros [Hu _]; (split; [exact Hu|]); left; reflexivity.
Qed.

(** Once the guard is closed for an episode it stays closed as the clock
    advances. *)
Lemma shouldSync_closed_later nowMs later url lastParsed :
  shouldSync nowMs url lastParsed = false ->
  (nowMs <= later)%Z ->
  shouldSync later url lastParsed = false.
Proof.
  unfold shouldSync. intros H Hle.
  destruct (truthy url); [|reflexivity]. simpl in *.
  destruct lastParsed as [t|]; simpl in *; [|discriminate].
  apply Z.ltb_ge in H. apply Z.ltb_ge. lia.
Qed.

Lemma shouldSync_closed_after_stamp nowMs later url :
  (nowMs <= later)%Z ->
  shouldSync later url (Some nowMs) = false.
Proof.
  intros Hle. unfold shouldSync. simpl.
  replace (_ <? _)%Z with false; [apply andb_false_r|].
  symmetry. apply Z.ltb_ge. lia.
Qed.

(** A stored timestamp that is not more than twelve hours in the future
    closes the guard, however old it is. *)
Lemma retrieveLatestChapters_skips_parsed_episode sv id w episode t :
  find (fun e => Episode.id e =? id) (episodes w) = Some episode ->
  Episode.chaptersUrlLastParsed episode = Some t ->
  (t <= now w + 43200000)%Z ->
  retrieveLatestChapters sv id w = (Returns (storedChapters id w), w).
Proof.
  intros Hfind Ht Hle.
  rewrite (retrieveLatestChapters_found sv id w episode Hfind).
  unfold afterSync.
  replace (shouldSync _ _ _) with false; [reflexivity|].
  symmetry. unfold shouldSync. rewrite Ht. simpl.
  replace (_ <? _)%Z with false; [apply andb_false_r|].
  symmetry. apply Z.ltb_ge. lia.
Qed.

(** ** Chapter Synchronizer *)

(** C1.  The freshness guard compares [now + 12h] with the stored
    timestamp, so an episode whose chapters were last parsed a whole day
    ago is not fetched again: the call returns the stored chapter, issues
    no request and leaves the world as it found it.  The source's own
    comment asks for an update once every twelve hours. *)
Theorem stale_chapters_are_not_refetched :
  find (fun e => Episode.id e =? "ep1") (episodes Fixture.staleWorld)
  = Some (Fixture.episode "ep1" "pod1" true (Some Fixture.chaptersUrl)
                          (Some (Fixture.clock - 24 * Fixture.hour)%Z))
  /\ retrieveLatestChapters Fixture.services "ep1" Fixture.staleWorld
     = (Returns ([Fixture.chapter "c10" "ep1" 10%Z "Old"], 1%nat), Fixture.staleWorld)
  /\ requestsOf (trace (snd (retrieveLatestChapters Fixture.services "ep1"
                                                    Fixture.staleWorld))) = [].
Proof.
  repeat split; vm_compute; reflexivity.
Qed.

(** C5.  A second run in immediate succession (the clock has not gone
    back) returns what the first run returned and leaves every table and
    the trace as the first run left them: it fetches nothing, and creates,
    updates and suppresses no media reference. *)
Theorem second_run_changes_nothing (sv : Services) (id : string) (w : World) (later : Z) :
  (now w <= later)%Z ->
  let first := retrieveLatestChapters sv id w in
  let second := retrieveLatestChapters sv id (set_now later (snd first)) in
  fst second = fst first
  /\ snd second = set_now later (snd first)
  /\ mediaRefs (snd second) = mediaRefs (snd first)
  /\ trace (snd second) = trace (snd first).
Proof.
  intros Hle first second.
  assert (Hsecond : second = (fst first, set_now later (snd first))).
  { subst first second.
    destruct (find (fun e => Episode.id e =? id) (episodes w)) as [episode|] eqn:Hfind.
    - rewrite (retrieveLatestChapters_found sv id w episode Hfind). simpl.
      destruct (afterSync_catalog sv id episode w) as [Hnow Heps].
      pose proof (find_some _ _ Hfind) as [_ Hid]. apply String.eqb_eq in Hid.
      set (w1 := afterSync sv id episode w) in *.
      destruct (shouldSync (now w) (Episode.chaptersUrl episode)
                           (Episode.chaptersUrlLastParsed episode)) eqn:Hguard.
      + assert (Hfind' : find (fun e => Episode.id e =? id) (episodes (set_now later w1))
                         = Some (Episode.set_chaptersUrlLastParsed (Some (now w)) episode)).
        { simpl. rewrite Heps. unfold stamped.
          rewrite find_map_preserving.
          - rewrite Hfind. simpl. now rewrite String.eqb_refl.
          - intros x. destruct (Episode.id x =? Episode.id episode); reflexivity. }
        rewrite (retrieveLatestChapters_found sv id _ _ Hfind').
        unfold afterSync. simpl.
        rewrite (shouldSync_closed_after_stamp (now w) later _ Hle). reflexivity.
      + assert (Hfind' : find (fun e => Episode.id e =? id) (episodes (set_now later w1))
                         = Some episode).
        { simpl. rewrite Heps. exact Hfind. }
        rewrite (retrieveLatestChapters_found sv id _ _ Hfind').
        unfold afterSync. simpl.
        rewrite (shouldSync_closed_later _ later _ _ Hguard Hle). reflexivity.
    - rewrite (retrieveLatestChapters_missing sv id w Hfind). simpl.
      now rewrite (retrieveLatestChapters_missing sv id (set_now later w) Hfind). }
  rewrite Hsecond. simpl. repeat split; reflexivity.
Qed.

Lemma second_run_changes_nothing_witness :
  (now Fixture.twoEpisodesWorld <= Fixture.clock + 1000)%Z
  /\ fst (retrieveLatestChapters Fixture.services "ep1"
            (set_now (Fixture.clock + 1000)%Z
                     (snd (retrieveLatestChapters Fixture.services "ep1"
                                                  Fixture.twoEpisodesWorld))))
     = fst (retrieveLatestChapters Fixture.services "ep1" Fixture.twoEpisodesWorld).
Proof.
  assert (H : (now Fixture.twoEpisodesWorld <= Fixture.clock + 1000)%Z)
    by (vm_compute; discriminate).
  split; [exact H|].
  exact (proj1 (second_run_changes_nothing Fixture.services "ep1" Fixture.twoEpisodesWorld
                                           (Fixture.clock + 1000)%Z H)).
Defined.



(** C2.  The query for the existing chapters has no episode predicate, so
    a run for episode [ep1] reconciles the official chapters of every
    episode against [ep1]'s document: the chapter at 20 of episode [ep2]
    is public before the run, the controller hands
    [{ id: "c20", isOfficialChapter: true, startTime: 20, isPublic: false }]
    to [updateMediaRef], and the chapter is suppressed after the run. *)
Theorem sync_suppresses_chapter_of_other_episode :
  officialChaptersOf "ep2" (mediaRefs Fixture.twoEpisodesWorld)
  = [MediaRef.mk "c20" "ep2" 20%Z None "B" None None true true "superUser"]
  /\ In (EvUpdateMediaRef (suppressPatch (RawChapter.mk "c20" true 20%Z)) "superUser")
        (trace (snd (retrieveLatestChapters Fixture.services "ep1"
                                            Fixture.twoEpisodesWorld)))
  /\ officialChaptersOf "ep2"
       (mediaRefs (snd (retrieveLatestChapters Fixture.services "ep1"
                                               Fixture.twoEpisodesWorld)))
     = [MediaRef.mk "c20" "ep2" 20%Z None "B" None None true false "superUser"].
Proof.
  split; [|split].
  - vm_compute. reflexivity.
  - vm_compute. right. right. left. reflexivity.
  - vm_compute. reflexivity.
Qed.

(** *** Updates through the media-reference controller of the spec *)

Lemma existsb_id_In (rows : list MediaRef.t) (m : MediaRef.t) :
  In m rows -> existsb (fun x => MediaRef.id x =? MediaRef.id m) rows = true.
Proof.
  intros Hin. apply existsb_exists. exists m. split; [exact Hin | apply String.eqb_refl].
Qed.

Lemma patchRow_id obj m : MediaRef.id (patchRow obj m) = MediaRef.id m.
Proof. unfold patchRow. destruct (_ =? _); reflexivity. Qed.

Lemma map_patchRow_ids obj rows :
  map MediaRef.id (map (patchRow obj) rows) = map MediaRef.id rows.
Proof.
  rewrite map_map. apply map_ext. intros m. apply patchRow_id.
Qed.

Lemma updateMediaRef_hit obj user rows m :
  In m rows -> MediaRefPatch.id obj = MediaRef.id m ->
  SpecModel.updateMediaRef obj user rows = inr (map (patchRow obj) rows).
Proof.
  intros Hin Hid. unfold SpecModel.updateMediaRef, patchRow.
  rewrite Hid, (existsb_id_In rows m Hin). reflexivity.
Qed.

Lemma unique_row (rows : list MediaRef.t) (a b : MediaRef.t) :
  NoDup (map MediaRef.id rows) ->
  In a rows -> In b rows -> MediaRef.id a = MediaRef.id b -> a = b.
Proof.
  induction rows as [|x rows IH]; intros Hnd Ha Hb Hid; [contradiction|].
  simpl in Hnd. inversion Hnd as [|? ? Hnotin Hnd']; subst.
  destruct Ha as [<-|Ha], Hb as [<-|Hb].
  - reflexivity.
  - exfalso. apply Hnotin. rewrite Hid. now apply in_map.
  - exfalso. apply Hnotin. rewrite <- Hid. now apply in_map.
  - now apply IH.
Qed.

Lemma filter_map_swap {A B} (p : B -> bool) (g : A -> B) (l : list A) :
  filter p (map g l) = map g (filter (fun x => p (g x)) l).
Proof.
  induction l as [|x l IH]; simpl; [reflexivity|].
  destruct (p (g x)); simpl; now rewrite IH.
Qed.

Lemma officialChaptersOf_filter id rows :
  officialChaptersOf id rows
  = filter (fun m => MediaRef.episodeId m =? id) (filter MediaRef.isOfficialChapter rows).
Proof.
  unfold officialChaptersOf.
  induction rows as [|m rows IH]; simpl; [reflexivity|].
  destruct (MediaRef.isOfficialChapter m); simpl; [|exact IH].
  destruct (MediaRef.episodeId m =? id); now rewrite IH.
Qed.

Lemma official_after_two_patches rows c10 c20 p10 p20 :
  NoDup (map MediaRef.id rows) ->
  filter MediaRef.isOfficialChapter rows = [c10; c20] ->
  MediaRefPatch.id p10 = MediaRef.id c10 ->
  MediaRefPatch.id p20 = MediaRef.id c20 ->
  MediaRef.id c10 <> MediaRef.id c20 ->
  MediaRefPatch.isOfficialChapter p10 = Some true ->
  MediaRefPatch.isOfficialChapter p20 = Some true ->
  filter MediaRef.isOfficialChapter (map (patchRow p10) (map (patchRow p20) rows))
  = [SpecModel.assign p10 c10; SpecModel.assign p20 c20].
Proof.
  intros Hnd Hf H10 H20 Hne Ho10 Ho20.
  assert (Hin10 : In c10 rows /\ MediaRef.isOfficialChapter c10 = true).
  { apply filter_In. rewrite Hf. now left. }
  assert (Hin20 : In c20 rows /\ MediaRef.isOfficialChapter c20 = true).
  { apply filter_In. rewrite Hf. right. now left. }
  destruct Hin10 as [Hin10 Hoff10], Hin20 as [Hin20 Hoff20].
  assert (Hne' : (MediaRef.id c10 =? MediaRef.id c20) = false)
    by now apply String.eqb_neq.
  assert (Hne'' : (MediaRef.id c20 =? MediaRef.id c10) = false)
    by (apply String.eqb_neq; congruence).
  rewrite map_map, filter_map_swap.
  rewrite (filter_ext_in _ MediaRef.isOfficialChapter).
  - rewrite Hf. simpl. unfold patchRow. rewrite H20, H10.
    rewrite Hne'. rewrite String.eqb_refl. rewrite String.eqb_refl.
    simpl. rewrite Hne''. reflexivity.
  - intros m Hm. unfold patchRow at 2. rewrite H20.
    destruct (MediaRef.id m =? MediaRef.id c20) eqn:E20.
    + apply String.eqb_eq in E20.
      rewrite (unique_row rows m c20 Hnd Hm Hin20 E20).
      unfold patchRow. simpl. rewrite H10, Hne''. simpl. now rewrite Ho20, Hoff20.
    + unfold patchRow. rewrite H10.
      destruct (MediaRef.id m =? MediaRef.id c10) eqn:E10; [|reflexivity].
      apply String.eqb_eq in E10.
      rewrite (unique_row rows m c10 Hnd Hm Hin10 E10).
      simpl. now rewrite Ho10, Hoff10.
Qed.

(** The scenario of the spec on a table whose only official chapters are
    the two of the episode, with the media-reference controller modelled
    from the spec.  The episode was never parsed, its document lists the
    single chapter [{startTime: 10, title: "A"}], and the official
    chapters in storage are [c10] at 10 and [c20] at 20.  After the run
    the chapter at 10 carries the title ["A"] and is public, the chapter
    at 20 is non-public, and the table holds the same identifiers as
    before: nothing was deleted (and nothing created). *)
Lemma sync_updates_matching_and_suppresses_missing
        (sv : Services) (id url body : string) (w : World) (episode : Episode.t)
        (c10 c20 : MediaRef.t) (img link : option string) :
  updateMediaRef sv = SpecModel.updateMediaRef ->
  find (fun e => Episode.id e =? id) (episodes w) = Some episode ->
  Episode.chaptersUrl episode = Some url ->
  url <> EmptyString ->
  Episode.chaptersUrlLastParsed episode = None ->
  request sv url = inr body ->
  parseChapters sv body = inr (Chapters [RemoteChapter.mk 10%Z "A" img link]) ->
  NoDup (map MediaRef.id (mediaRefs w)) ->
  filter MediaRef.isOfficialChapter (mediaRefs w) = [c10; c20] ->
  MediaRef.startTime c10 = 10%Z ->
  MediaRef.startTime c20 = 20%Z ->
  MediaRef.episodeId c20 = id ->
  MediaRef.id c10 <> EmptyString ->
  MediaRef.id c10 <> MediaRef.id c20 ->
  let c10' := MediaRef.mk (MediaRef.id c10) id 10%Z (MediaRef.endTime c10) "A"
                          (orNull img) (orNull link) true true (MediaRef.owner c10) in
  let c20' := MediaRef.mk (MediaRef.id c20) id 20%Z (MediaRef.endTime c20)
                          (MediaRef.title c20) (MediaRef.imageUrl c20)
                          (MediaRef.linkUrl c20) true false (MediaRef.owner c20) in
  let w' := snd (retrieveLatestChapters sv id w) in
  filter MediaRef.isOfficialChapter (mediaRefs w') = [c10'; c20']
  /\ map MediaRef.id (mediaRefs w') = map MediaRef.id (mediaRefs w)
  /\ fst (retrieveLatestChapters sv id w) = Returns ([c10'; c20'], 2%nat).
Proof.
  intros Hupd Hfind Hurl Hne Hlp Hreq Hparse Hnd Hf Ht10 Ht20 Hep20 Hid10 Hids
         c10' c20' w'.
  assert (Hin10 : In c10 (mediaRefs w)).
  { apply (proj1 (filter_In MediaRef.isOfficialChapter c10 (mediaRefs w))).
    rewrite Hf. now left. }
  assert (Hin20 : In c20 (mediaRefs w) /\ MediaRef.isOfficialChapter c20 = true).
  { apply filter_In. rewrite Hf. right. now left. }
  destruct Hin20 as [Hin20 Hoff20].
  assert (Hoff10 : MediaRef.isOfficialChapter c10 = true).
  { apply (proj2 (proj1 (filter_In MediaRef.isOfficialChapter c10 (mediaRefs w))
                        ltac:(rewrite Hf; now left))). }
  set (p20 := suppressPatch (RawChapter.mk (MediaRef.id c20) true 20%Z)).
  set (p10 := updatePatch (MediaRef.id c10) id (RemoteChapter.mk 10%Z "A" img link)).
  assert (Hrefs : mediaRefs w' = map (patchRow p10) (map (patchRow p20) (mediaRefs w))).
  { subst w'. rewrite (retrieveLatestChapters_found sv id w episode Hfind). simpl.
    unfold afterSync, shouldSync. rewrite Hurl, Hlp. simpl.
    apply String.eqb_neq in Hne. rewrite Hne. simpl.
    unfold tryCatch, remoteSync, bind, episodeRepositoryUpdate, callRequest, callParse,
      getExistingChapters. simpl.
    rewrite Hreq, Hparse. simpl. rewrite Hf. simpl.
    rewrite Ht10, Ht20, Hoff10, Hoff20.
    unfold deadChaptersOf. simpl.
    unfold suppressDeadChapters, forOf, bind, callUpdateMediaRef. simpl.
    rewrite Hupd.
    pose proof (updateMediaRef_hit p20 (superUserId sv) (mediaRefs w) c20 Hin20 eq_refl)
      as Hhit20.
    unfold p20 in Hhit20 at 1. rewrite Hhit20. simpl.
    unfold syncNewChapters, forOf, bind, tryCatch, reconcileNewChapter. simpl.
    simpl.
    apply String.eqb_neq in Hid10. rewrite Hid10. simpl.
    unfold callUpdateMediaRef. simpl. rewrite Hupd.
    pose proof (updateMediaRef_hit p10 (superUserId sv) (map (patchRow p20) (mediaRefs w))
                                   (patchRow p20 c10) (in_map _ _ _ Hin10)
                                   (eq_sym (patchRow_id p20 c10))) as Hhit10.
    unfold p10 in Hhit10 at 1. rewrite Hhit10. reflexivity. }
  assert (Hoff : filter MediaRef.isOfficialChapter (mediaRefs w') = [c10'; c20']).
  { rewrite Hrefs.
    rewrite (official_after_two_patches (mediaRefs w) c10 c20 p10 p20 Hnd Hf
               eq_refl eq_refl Hids eq_refl).
    - subst c10' c20' p10 p20. unfold SpecModel.assign. simpl.
      rewrite Hep20. reflexivity.
    - reflexivity. }
  split; [exact Hoff|]. split.
  - rewrite Hrefs. now rewrite !map_patchRow_ids.
  - subst w'.
    rewrite (retrieveLatestChapters_found sv id w episode Hfind) in Hoff |- *.
    simpl in Hoff |- *.
    unfold storedChapters. rewrite officialChaptersOf_filter, Hoff.
    subst c10' c20'. simpl. rewrite String.eqb_refl. reflexivity.
Qed.

Lemma sync_updates_matching_and_suppresses_missing_witness :
  let w' := snd (retrieveLatestChapters Fixture.services "ep1" Fixture.scenarioWorld) in
  filter MediaRef.isOfficialChapter (mediaRefs w')
  = [MediaRef.mk "c10" "ep1" 10%Z None "A" None None true true "superUser";
     MediaRef.mk "c20" "ep1" 20%Z None "B" None None true false "superUser"]
  /\ map MediaRef.id (mediaRefs w') = ["c10"; "c20"]
  /\ fst (retrieveLatestChapters Fixture.services "ep1" Fixture.scenarioWorld)
     = Returns ([MediaRef.mk "c10" "ep1" 10%Z None "A" None None true true "superUser";
                 MediaRef.mk "c20" "ep1" 20%Z None "B" None None true false "superUser"],
                2%nat).
Proof.
  refine (sync_updates_matching_and_suppresses_missing
            Fixture.services "ep1" Fixture.chaptersUrl "doc" Fixture.scenarioWorld
            (Fixture.episode "ep1" "pod1" true (Some Fixture.chaptersUrl) None)
            (Fixture.chapter "c10" "ep1" 10%Z "Old")
            (Fixture.chapter "c20" "ep1" 20%Z "B")
            None None
            eq_refl eq_refl eq_refl _ eq_refl eq_refl eq_refl _ eq_refl eq_refl eq_refl
            eq_refl _ _).
  - discriminate.
  - simpl. repeat constructor; simpl; intuition discriminate.
  - discriminate.
  - discriminate.
Defined.

(** C3.  The scenario of the spec on a table that also holds an
    official chapter of another episode.  Episode [ep1] was never parsed,
    its document lists the single chapter [{startTime: 10, title: "A"}],
    and its local official chapters are [c10] at 10, titled ["Old"], and
    [c20] at 20, titled ["B"]; the official chapter [c0] of episode [ep2],
    also at 10, is stored before them.  The query for the existing
    chapters has no episode predicate, so [find] takes [c0] for the
    chapter at 10: the controller calls [updateMediaRef] for [c20] and
    for [c0], with the title ["A"] and [episodeId = "ep1"], and never for
    [c10].  After the run the official chapter [c10] of [ep1] at 10 is
    still titled ["Old"], and the chapter of [ep2] has become a chapter of
    [ep1]. *)
Theorem sync_updates_chapter_of_other_episode_at_same_startTime :
  let w := Fixture.sharedStartTimeWorld in
  let run := retrieveLatestChapters Fixture.services "ep1" w in
  let c0' := MediaRef.mk "c0" "ep1" 10%Z None "A" None None true true "superUser" in
  let c10 := MediaRef.mk "c10" "ep1" 10%Z None "Old" None None true true "superUser" in
  let c20 := MediaRef.mk "c20" "ep1" 20%Z None "B" None None true true "superUser" in
  let c20' := MediaRef.mk "c20" "ep1" 20%Z None "B" None None true false "superUser" in
  filter (fun m => MediaRef.isOfficialChapter m && (MediaRef.episodeId m =? "ep1"))
         (mediaRefs w)
  = [c10; c20]
  /\ documentOf Fixture.services Fixture.chaptersUrl
     = inr (Chapters [RemoteChapter.mk 10%Z "A" None None])
  /\ trace (snd run)
     = [EvEpisodeUpdate "ep1" Fixture.clock;
        EvRequest Fixture.chaptersUrl;
        EvUpdateMediaRef (suppressPatch (RawChapter.mk "c20" true 20%Z)) "superUser";
        EvUpdateMediaRef (updatePatch "c0" "ep1" (RemoteChapter.mk 10%Z "A" None None))
                         "superUser"]
  /\ mediaRefs (snd run) = [c0'; c10; c20']
  /\ fst run = Returns ([c0'; c10; c20'], 3%nat).
Proof.
  repeat split; vm_compute; reflexivity.
Qed.

(** *** Failures of single chapters *)

Lemma attemptedStartTimes_app tr1 tr2 :
  attemptedStartTimes (tr1 ++ tr2) = attemptedStartTimes tr1 ++ attemptedStartTimes tr2.
Proof. apply flat_map_app. Qed.

(** One turn of the loop over [newChapters]: the chapter reaches the
    media-reference controller, a failure is logged, and the turn ends
    normally. *)
Lemma newChapter_turn sv existing id newChapter w :
  let turn := tryCatch (reconcileNewChapter sv existing id newChapter)
                       (consoleLog "retrieveLatestChapters newChapter") w in
  fst turn = Returns tt
  /\ exists evs,
      trace (snd turn) = trace w ++ evs
      /\ attemptedStartTimes evs = [RemoteChapter.startTime newChapter]
      /\ Forall isNewChapterEvent evs.
Proof.
  unfold tryCatch, reconcileNewChapter, consoleLog, emit.
  destruct (find _ existing) as [existingChapter|];
    [destruct (negb (RawChapter.id existingChapter =? EmptyString))|].
  - unfold callUpdateMediaRef.
    destruct (updateMediaRef sv _ _ _) as [e|rows]; simpl;
      (split; [reflexivity|]).
    + eexists [_; _]. rewrite <- app_assoc. simpl.
      split; [reflexivity|]. split; [reflexivity|].
      repeat constructor.
    + eexists [_]. split; [reflexivity|]. split; [reflexivity|].
      repeat constructor.
  - unfold callCreateMediaRef.
    destruct (createMediaRef sv _ _) as [e|rows]; simpl;
      (split; [reflexivity|]).
    + eexists [_; _]. rewrite <- app_assoc. simpl.
      split; [reflexivity|]. split; [reflexivity|].
      repeat constructor.
    + eexists [_]. split; [reflexivity|]. split; [reflexivity|].
      repeat constructor.
  - unfold callCreateMediaRef.
    destruct (createMediaRef sv _ _) as [e|rows]; simpl;
      (split; [reflexivity|]).
    + eexists [_; _]. rewrite <- app_assoc. simpl.
      split; [reflexivity|]. split; [reflexivity|].
      repeat constructor.
    + eexists [_]. split; [reflexivity|]. split; [reflexivity|].
      repeat constructor.
Qed.

(** C4, as the spec words it, fails: the loop over the dead chapters has
    no handler of its own.  When the suppression of the chapter at 20
    fails, the chapter at 30 is never suppressed and the remote chapter at
    10 is never created; the failure is logged once, as a failure of the
    request. *)
Lemma suppression_failure_stops_reconciliation :
  ~ everyChapterAttempted Fixture.flakyServices "ep1" Fixture.twoDeadChaptersWorld
      [RemoteChapter.mk 10%Z "A" None None]
  /\ attemptedStartTimes
       (trace (snd (retrieveLatestChapters Fixture.flakyServices "ep1"
                                           Fixture.twoDeadChaptersWorld)))
     = [20%Z]
  /\ mediaRefs (snd (retrieveLatestChapters Fixture.flakyServices "ep1"
                                            Fixture.twoDeadChaptersWorld))
     = mediaRefs Fixture.twoDeadChaptersWorld.
Proof.
  split; [|split].
  - unfold everyChapterAttempted. vm_compute. discriminate.
  - vm_compute. reflexivity.
  - vm_compute. reflexivity.
Qed.

(** One turn of the loop over [newChapters], against the table: the call
    for the chapter, and the log line that follows a failed call. *)
Lemma newChapter_turn_isolated sv existing id newChapter w :
  let turn := tryCatch (reconcileNewChapter sv existing id newChapter)
                       (consoleLog "retrieveLatestChapters newChapter") w in
  exists call,
    chapterOfCall call = Some (RemoteChapter.startTime newChapter)
    /\ match answerOf sv (mediaRefs w) call with
       | Some (inr rows') =>
           trace (snd turn) = trace w ++ [call] /\ mediaRefs (snd turn) = rows'
       | Some (inl error) =>
           trace (snd turn)
           = trace w ++ [call; EvLog "retrieveLatestChapters newChapter" error]
           /\ mediaRefs (snd turn) = mediaRefs w
       | None => False
       end.
Proof.
  unfold tryCatch, reconcileNewChapter, consoleLog, emit.
  destruct (find _ existing) as [existingChapter|];
    [destruct (negb (RawChapter.id existingChapter =? EmptyString))|].
  - exists (EvUpdateMediaRef (updatePatch (RawChapter.id existingChapter) id newChapter)
                             (superUserId sv)).
    split; [reflexivity|].
    unfold callUpdateMediaRef, answerOf. cbn [mediaRefs record_event].
    destruct (updateMediaRef sv _ _ _) as [e|rows]; simpl;
      [rewrite <- app_assoc|]; split; reflexivity.
  - exists (EvCreateMediaRef (createObj sv id newChapter)). split; [reflexivity|].
    unfold callCreateMediaRef, answerOf. cbn [mediaRefs record_event].
    destruct (createMediaRef sv _ _) as [e|rows]; simpl;
      [rewrite <- app_assoc|]; split; reflexivity.
  - exists (EvCreateMediaRef (createObj sv id newChapter)). split; [reflexivity|].
    unfold callCreateMediaRef, answerOf. cbn [mediaRefs record_event].
    destruct (createMediaRef sv _ _) as [e|rows]; simpl;
      [rewrite <- app_assoc|]; split; reflexivity.
Qed.

Lemma syncNewChapters_isolated sv existingChapters id newChapters w :
  exists evs,
    trace (snd (syncNewChapters sv existingChapters id newChapters w)) = trace w ++ evs
    /\ IsolatedTurns sv (mediaRefs w) newChapters evs
                     (mediaRefs (snd (syncNewChapters sv existingChapters id newChapters w))).
Proof.
  revert w. induction newChapters as [|nc rest IH]; intros w.
  - exists []. simpl. rewrite app_nil_r. split; [reflexivity | constructor].
  - unfold syncNewChapters in *. simpl. unfold bind at 1 2.
    destruct (newChapter_turn sv existingChapters id nc w) as [Hret _].
    destruct (newChapter_turn_isolated sv existingChapters id nc w)
      as [call [Hchapter Hturn]].
    destruct (tryCatch _ _ w) as [r w1]. cbn [fst snd] in Hret, Hturn. subst r.
    destruct (IH w1) as [evs [Htrace Hturns]].
    destruct (answerOf sv (mediaRefs w) call) as [[error|rows']|] eqn:Hanswer;
      [| |contradiction]; destruct Hturn as [Htr1 Hrows1].
    + exists (call :: EvLog "retrieveLatestChapters newChapter" error :: evs). split.
      * rewrite Htrace, Htr1, <- app_assoc. reflexivity.
      * eapply turn_failed; [exact Hchapter | exact Hanswer |].
        rewrite <- Hrows1. exact Hturns.
    + exists (call :: evs). split.
      * rewrite Htrace, Htr1, <- app_assoc. reflexivity.
      * eapply turn_succeeded; [exact Hchapter | exact Hanswer |].
        rewrite <- Hrows1. exact Hturns.
Qed.

(** C4, amended.  Whatever the media-reference controller does, the loop
    over the remote chapters hands every chapter of the document to it, in
    order, adds nothing to the trace but those calls and its own log
    lines, and ends normally; each chapter has its turn on the table the
    turns before it left, and every call that fails is followed by a log
    line of its own that carries its error; and a call for an existing
    episode never throws. *)
Theorem new_chapter_failures_are_isolated
        (sv : Services) (existingChapters : list RawChapter.t) (id : string)
        (newChapters : list RemoteChapter.t) (w : World) :
  let loop := syncNewChapters sv existingChapters id newChapters w in
  fst loop = Returns tt
  /\ (exists evs,
         trace (snd loop) = trace w ++ evs
         /\ attemptedStartTimes evs = map RemoteChapter.startTime newChapters
         /\ Forall isNewChapterEvent evs)
  /\ (exists evs,
         trace (snd loop) = trace w ++ evs
         /\ IsolatedTurns sv (mediaRefs w) newChapters evs (mediaRefs (snd loop)))
  /\ isThrows (fst (retrieveLatestChapters sv id w)) = negb (episodeExists id w).
Proof.
  split; [|split; [|split]].
  - revert w. induction newChapters as [|nc rest IH]; intros w; [reflexivity|].
    unfold syncNewChapters in *. simpl. unfold bind at 1.
    destruct (newChapter_turn sv existingChapters id nc w) as [Hret _].
    destruct (tryCatch _ _ w) as [r w1]. simpl in Hret. subst r. apply IH.
  - revert w. induction newChapters as [|nc rest IH]; intros w.
    + exists []. simpl. rewrite app_nil_r. repeat split. constructor.
    + unfold syncNewChapters in *. simpl. unfold bind at 1.
      destruct (newChapter_turn sv existingChapters id nc w)
        as [Hret [evs1 [Htr1 [Hatt1 Hall1]]]].
      destruct (tryCatch _ _ w) as [r w1]. simpl in Hret, Htr1. subst r.
      destruct (IH w1) as [evs2 [Htr2 [Hatt2 Hall2]]].
      exists (evs1 ++ evs2). split; [|split].
      * rewrite Htr2, Htr1. now rewrite app_assoc.
      * rewrite attemptedStartTimes_app, Hatt1, Hatt2. reflexivity.
      * apply Forall_app. split; assumption.
  - apply syncNewChapters_isolated.
  - unfold episodeExists. rewrite existsb_find.
    destruct (find (fun e => Episode.id e =? id) (episodes w)) as [episode|] eqn:Hfind.
    + now rewrite (retrieveLatestChapters_found sv id w episode Hfind).
    + now rewrite (retrieveLatestChapters_missing sv id w Hfind).
Qed.

(** ** Dead-Episode Reaper *)

Lemma In_firstn {A} (n : nat) (l : list A) (x : A) : In x (firstn n l) -> In x l.
Proof.
  intros H. rewrite <- (firstn_skipn n l). apply in_or_app. now left.
Qed.

Lemma In_skipn {A} (n : nat) (l : list A) (x : A) : In x (skipn n l) -> In x l.
Proof.
  intros H. rewrite <- (firstn_skipn n l). apply in_or_app. now right.
Qed.


Lemma removeEpisodes_run (ids : list string) (w : World) :
  fst (removeEpisodes ids w) = Returns tt
  /\ episodes (snd (removeEpisodes ids w))
     = filter (fun e => negb (memStr (Episode.id e) ids)) (episodes w)
  /\ mediaRefs (snd (removeEpisodes ids w)) = mediaRefs w.
Proof.
  revert w. induction ids as [|id rest IH]; intros w.
  - simpl. repeat split.
    induction (episodes w) as [|e l IHl]; simpl; congruence.
  - unfold removeEpisodes in *.
    set (w1 := record_event (EvEpisodeRemove id)
                 (set_episodes (filter (fun e => negb (Episode.id e =? id)) (episodes w)) w)).
    assert (Hstep : forOf (id :: rest) repositoryRemove w = forOf rest repositoryRemove w1)
      by reflexivity.
    rewrite Hstep.
    destruct (IH w1) as [Hret [Heps Hrefs]].
    split; [exact Hret|]. split; [|exact Hrefs].
    rewrite Heps. simpl. clear.
    induction (episodes w) as [|e l IHl]; simpl; [reflexivity|].
    rewrite (String.eqb_sym id (Episode.id e)).
    destruct (Episode.id e =? id); simpl; [exact IHl|].
    destruct (memStr (Episode.id e) rest); simpl; [exact IHl | now rewrite IHl].
Qed.



(** ** Episode listings *)

Lemma episodeQueriesOf_app tr1 tr2 :
  episodeQueriesOf (tr1 ++ tr2) = episodeQueriesOf tr1 ++ episodeQueriesOf tr2.
Proof. apply flat_map_app. Qed.

Lemma skipn_length_app {A} (l1 l2 : list A) : skipn (List.length l1) (l1 ++ l2) = l2.
Proof. induction l1 as [|x l1 IH]; simpl; [reflexivity | exact IH]. Qed.

Lemma newEpisodeQueries_of_events {A} (w w' : World) (o : Outcome A) (evs : list Event) :
  trace w' = trace w ++ evs ->
  newEpisodeQueries w (o, w') = episodeQueriesOf evs.
Proof.
  intros H. unfold newEpisodeQueries. simpl.
  now rewrite H, episodeQueriesOf_app, skipn_length_app.
Qed.

Lemma paginate_nil {A} (offset limit : option nat) : @paginate A offset limit [] = [].
Proof.
  unfold paginate. destruct offset as [n|], limit as [[|m]|];
    rewrite ?skipn_nil, ?firstn_nil; reflexivity.
Qed.

Lemma In_paginate {A} (offset limit : option nat) (rows : list A) (x : A) :
  In x (paginate offset limit rows) -> In x rows.
Proof.
  unfold paginate. intros H.
  destruct limit as [[|m]|]; [| apply In_firstn in H |];
    (destruct offset as [n|]; [apply In_skipn in H|]); exact H.
Qed.

Lemma satisfies_andWhere sv c qb w e :
  satisfies sv (QB.andWhere c qb) w e = satisfies sv qb w e && evalCondition sv c e.
Proof.
  unfold satisfies, QB.andWhere. simpl.
  rewrite forallb_app. simpl. rewrite andb_true_r. apply andb_assoc.
Qed.

Lemma In_cleanEpisodes e rows : In e rows -> In (cleaned e) (cleanEpisodes rows).
Proof. intros H. unfold cleanEpisodes. now apply (in_map cleaned). Qed.

Lemma cleanEpisodes_public rows :
  Forall (fun e => Episode.isPublic e = true) rows ->
  Forall (fun e => Episode.isPublic e = true) (cleanEpisodes rows).
Proof.
  intros H. unfold cleanEpisodes. apply Forall_map.
  eapply Forall_impl; [|exact H]. intros e He. exact He.
Qed.

(** *** The recency-index-assisted path *)

Lemma isNil_false {A} (l : list A) : l <> [] -> isNil l = false.
Proof. destruct l; [contradiction | reflexivity]. Qed.

Lemma handleMostRecentEpisodesQuery_empty sv qb type ids skip take w :
  ids <> [] ->
  recentMatches type ids w = [] ->
  handleMostRecentEpisodesQuery sv qb type ids skip take w
  = (Returns ([], 0%nat), record_event (EvRecentEpisodeQuery type ids) w).
Proof.
  intros Hids Hnone.
  unfold handleMostRecentEpisodesQuery, bind, getRecentEpisodes.
  rewrite (isNil_false ids Hids). cbn [fst snd]. rewrite Hnone. reflexivity.
Qed.

(** For a non-empty list of ids without matching row in the recency
    projection, the most-recent path returns [([], 0)] right after reading
    the projection: that read is the only thing it adds to the trace, and
    no plan is executed against the episode table. *)
Lemma empty_projection_returns_without_episode_query
      (sv : Services) (qb : QB.t) (type : string) (ids : list string)
      (skip take : option nat) (w : World) :
  ids <> [] ->
  recentMatches type ids w = [] ->
  let run := handleMostRecentEpisodesQuery sv qb type ids skip take w in
  fst run = Returns ([], 0%nat)
  /\ trace (snd run) = trace w ++ [EvRecentEpisodeQuery type ids]
  /\ episodeQueriesOf (trace (snd run)) = episodeQueriesOf (trace w)
  /\ newEpisodeQueries w run = [].
Proof.
  intros Hids Hnone run. subst run.
  rewrite (handleMostRecentEpisodesQuery_empty sv qb type ids skip take w Hids Hnone).
  split; [reflexivity|]. split; [reflexivity|]. split.
  - simpl. rewrite episodeQueriesOf_app. simpl. apply app_nil_r.
  - now rewrite (newEpisodeQueries_of_events w _ _ [EvRecentEpisodeQuery type ids]).
Qed.

(** C9.  The empty list of ids, which an absent or empty [categories] or
    [podcastId] parameter gives, has no matching row in the recency
    projection, yet the most-recent listing does not return [([], 0)]:
    the projection is queried with [IN ()] and the call fails with the
    [QueryFailedError] of the storage.  Nothing guards the list of ids,
    where the list of episode ids of the second query is guarded by its
    length. *)
Theorem most_recent_listing_fails_on_empty_id_list :
  splitIds (Query.categories (Fixture.query "most-recent" None None)) = []
  /\ filter (fun r => existsb (fun id => id =? RecentEpisode.groupId r) [])
            (recentEpisodesByCategory Fixture.recencyWorld)
     = []
  /\ getEpisodesByCategoryIds Fixture.services (Fixture.query "most-recent" None None)
                              Fixture.recencyWorld
     = (Throws queryFailedError,
        record_event (EvRecentEpisodeQuery "categoriesIds" []) Fixture.recencyWorld)
  /\ getEpisodesByPodcastIds Fixture.services (Fixture.query "most-recent" None None)
                             Fixture.recencyWorld
     = (Throws queryFailedError,
        record_event (EvRecentEpisodeQuery "podcastIds" []) Fixture.recencyWorld).
Proof.
  repeat split; vm_compute; reflexivity.
Qed.

(** The two entry points reach that path when the sort is [most-recent]. *)
Lemma getEpisodesByCategoryIds_empty_projection sv query w :
  Query.sort query = "most-recent" ->
  splitIds (Query.categories query) <> [] ->
  recentMatches "categoriesIds" (splitIds (Query.categories query)) w = [] ->
  getEpisodesByCategoryIds sv query w
  = (Returns ([], 0%nat),
     record_event (EvRecentEpisodeQuery "categoriesIds" (splitIds (Query.categories query))) w).
Proof.
  intros Hsort Hids Hnone. unfold getEpisodesByCategoryIds, bind, getWorld.
  rewrite Hsort. cbn [String.eqb Ascii.eqb Bool.eqb andb].
  now apply handleMostRecentEpisodesQuery_empty.
Qed.

Lemma getEpisodesByPodcastIds_empty_projection sv query w :
  Query.sort query = "most-recent" ->
  splitIds (Query.podcastId query) <> [] ->
  recentMatches "podcastIds" (splitIds (Query.podcastId query)) w = [] ->
  List.length (splitIds (Query.podcastId query)) <> 1%nat ->
  getEpisodesByPodcastIds sv query w
  = (Returns ([], 0%nat),
     record_event (EvRecentEpisodeQuery "podcastIds" (splitIds (Query.podcastId query))) w).
Proof.
  intros Hsort Hids Hnone Hlen. unfold getEpisodesByPodcastIds, bind, getWorld.
  apply Nat.eqb_neq in Hlen. rewrite Hlen.
  rewrite Hsort. cbn [String.eqb Ascii.eqb Bool.eqb andb].
  now apply handleMostRecentEpisodesQuery_empty.
Qed.

Lemma handleMostRecentEpisodesQuery_run sv qb type ids skip take w :
  let page := recentPage type ids skip take w in
  let total := List.length (recentMatches type ids w) in
  let w1 := record_event (EvRecentEpisodeQuery type ids) w in
  let qb' := QB.andWhere (CondIdIn (map RecentEpisode.episodeId page)) qb in
  handleMostRecentEpisodesQuery sv qb type ids skip take w
  = if isNil ids then (Throws queryFailedError, w1)
    else if (total =? 0)%nat then (Returns ([], 0%nat), w1)
    else if (List.length (map RecentEpisode.episodeId page) <=? 0)%nat
         then (Returns ([], total), w1)
         else if hasEmptyIn qb'
              then (Throws queryFailedError, record_event (EvEpisodeQuery qb') w1)
              else (Returns (cleanEpisodes (pageOf sv qb' w), total),
                    record_event (EvEpisodeQuery qb') w1).
Proof.
  intros page total w1 qb'.
  unfold handleMostRecentEpisodesQuery, bind, getRecentEpisodes.
  destruct (isNil ids); [reflexivity|]. cbn [fst snd].
  fold total. destruct (total =? 0)%nat; [reflexivity|].
  fold page. destruct (_ <=? 0)%nat; [reflexivity|].
  unfold getMany. fold qb'. destruct (hasEmptyIn qb'); reflexivity.
Qed.

Lemma hasEmptyIn_same_plan qb qb' :
  QB.joins qb' = QB.joins qb -> QB.conditions qb' = QB.conditions qb ->
  hasEmptyIn qb' = hasEmptyIn qb.
Proof. intros Hj Hc. unfold hasEmptyIn. now rewrite Hj, Hc. Qed.

Lemma handleGetEpisodesWithOrdering_run sv qb query skip sort take w :
  exists qb',
    QB.conditions qb' = QB.conditions qb
    /\ QB.joins qb' = QB.joins qb
    /\ QB.offset qb' = skip
    /\ QB.limit qb' = take
    /\ snd (handleGetEpisodesWithOrdering sv qb query skip sort take w)
       = record_event (EvEpisodeQuery qb') w
    /\ fst (handleGetEpisodesWithOrdering sv qb query skip sort take w)
       = if hasEmptyIn qb
         then Throws queryFailedError
         else Returns (cleanEpisodes (pageOf sv qb' w),
                       List.length (matchingEpisodes sv qb' w)).
Proof.
  unfold handleGetEpisodesWithOrdering, bind, getManyAndCount.
  destruct (Query.sort query =? "random").
  - exists (QB.set_orderBy (fst (getQueryOrderColumn sv "episode" sort "pubDate")) None
                           (QB.set_limit take (QB.set_offset skip qb))).
    match goal with
    | |- context [hasEmptyIn ?q] =>
        assert (Hsame : hasEmptyIn q = hasEmptyIn qb) by reflexivity; rewrite Hsame
    end.
    destruct (hasEmptyIn qb); repeat split; reflexivity.
  - exists (QB.set_orderBy (fst (getQueryOrderColumn sv "episode" sort "pubDate"))
                           (Some (snd (getQueryOrderColumn sv "episode" sort "pubDate")))
                           (QB.set_limit take (QB.set_offset skip qb))).
    match goal with
    | |- context [hasEmptyIn ?q] =>
        assert (Hsame : hasEmptyIn q = hasEmptyIn qb) by reflexivity; rewrite Hsame
    end.
    destruct (hasEmptyIn qb); repeat split; reflexivity.
Qed.

(** What a direct listing returns, when it returns. *)
Lemma handleGetEpisodesWithOrdering_episodes sv qb query skip sort take w :
  exists qb',
    QB.conditions qb' = QB.conditions qb
    /\ QB.joins qb' = QB.joins qb
    /\ QB.offset qb' = skip
    /\ QB.limit qb' = take
    /\ episodesOf (handleGetEpisodesWithOrdering sv qb query skip sort take w)
       = if hasEmptyIn qb then [] else cleanEpisodes (pageOf sv qb' w).
Proof.
  destruct (handleGetEpisodesWithOrdering_run sv qb query skip sort take w)
    as [qb' [Hc [Hj [Ho [Hl [_ Hfst]]]]]].
  exists qb'. repeat split; try assumption.
  unfold episodesOf. rewrite Hfst. destruct (hasEmptyIn qb); reflexivity.
Qed.

Lemma hasLimitingCondition_andWhere c qb :
  hasLimitingCondition (QB.andWhere c qb) = hasLimitingCondition qb || isLimiting c.
Proof.
  unfold hasLimitingCondition, QB.andWhere. simpl.
  rewrite existsb_app. simpl. now rewrite orb_false_r.
Qed.

Lemma hasPublicCondition_andWhere c qb :
  hasPublicCondition (QB.andWhere c qb) = hasPublicCondition qb || isPublicCondition c.
Proof.
  unfold hasPublicCondition, QB.andWhere. simpl.
  rewrite existsb_app. simpl. now rewrite orb_false_r.
Qed.

Lemma generateEpisodeSelects_plain sv includePodcast searchAllFieldsText :
  let qb := generateEpisodeSelects sv includePodcast searchAllFieldsText in
  hasLimitingCondition qb = false
  /\ hasPublicCondition qb = false
  /\ QB.offset qb = None /\ QB.limit qb = None /\ QB.orderBy qb = None.
Proof.
  unfold generateEpisodeSelects, hasLimitingCondition, hasPublicCondition. simpl.
  destruct (negb _); repeat split; reflexivity.
Qed.

(** The only sorts for which [limitEpisodesQuerySize] has a window. *)
Lemma limitEpisodesQuerySize_limiting sv nowMs qb shouldLimit sort :
  hasLimitingCondition (limitEpisodesQuerySize sv nowMs qb shouldLimit sort)
  = hasLimitingCondition qb
    || (shouldLimit && (isTopSort sort || (sort =? "most-recent"))).
Proof.
  unfold limitEpisodesQuerySize, isTopSort.
  destruct shouldLimit; [|now rewrite orb_false_r].
  destruct (sort =? "top-past-hour");
    [rewrite hasLimitingCondition_andWhere; reflexivity|].
  destruct (sort =? "top-past-day");
    [rewrite hasLimitingCondition_andWhere; reflexivity|].
  destruct (sort =? "top-past-week");
    [rewrite hasLimitingCondition_andWhere; reflexivity|].
  destruct (sort =? "top-past-month");
    [rewrite hasLimitingCondition_andWhere; reflexivity|].
  destruct (sort =? "top-past-year");
    [rewrite hasLimitingCondition_andWhere; reflexivity|].
  destruct (sort =? "top-all-time");
    [rewrite hasLimitingCondition_andWhere; reflexivity|].
  destruct (sort =? "most-recent");
    [rewrite hasLimitingCondition_andWhere; reflexivity|].
  simpl. now rewrite orb_false_r.
Qed.

(** C8, as stated, fails in two ways: with eleven podcast ids the sort
    [most-recent] goes through the recency index, and the sort [random]
    has no window in [limitEpisodesQuerySize]; in neither run does an
    executed plan carry a limiting condition. *)
Lemma eleven_podcasts_without_limiting :
  List.length (splitIds (Some Fixture.elevenPodcasts)) = 11%nat
  /\ limitingApplied
       (trace (snd (getEpisodesByPodcastIds
                      Fixture.services
                      (Fixture.query "most-recent" None (Some Fixture.elevenPodcasts))
                      Fixture.recencyWorld)))
     = false
  /\ episodesOf (getEpisodesByPodcastIds
                   Fixture.services
                   (Fixture.query "most-recent" None (Some Fixture.elevenPodcasts))
                   Fixture.recencyWorld)
     = [Fixture.hiddenEpisode]
  /\ limitingApplied
       (trace (snd (getEpisodesByPodcastIds
                      Fixture.services
                      (Fixture.query "random" None (Some Fixture.elevenPodcasts))
                      Fixture.recencyWorld)))
     = false.
Proof.
  repeat split; vm_compute; reflexivity.
Qed.

(** C8, amended.  Among the plans [getEpisodesByPodcastIds] executes, one
    carries a limiting condition exactly when more than 10 podcast ids are
    requested and the sort is one of the six popularity sorts; with
    exactly one podcast id none does, whatever the sort. *)
Theorem podcast_listing_limits_only_popularity_sorts_over_ten_ids
        (sv : Services) (query : Query.t) (w : World) :
  let podcastIds := splitIds (Query.podcastId query) in
  exists evs,
    trace (snd (getEpisodesByPodcastIds sv query w)) = trace w ++ evs
    /\ limitingApplied evs
       = (10 <? List.length podcastIds)%nat && isTopSort (Query.sort query)
    /\ (List.length podcastIds =? 1)%nat && limitingApplied evs = false.
Proof.
  intros podcastIds.
  destruct (generateEpisodeSelects_plain sv (Query.includePodcast query)
                                         (Query.searchAllFieldsText query))
    as [Hbase _].
  unfold getEpisodesByPodcastIds, bind, getWorld. fold podcastIds.
  destruct (List.length podcastIds =? 1)%nat eqn:Hone.
  - unfold getEpisodesByPodcastId.
    destruct (handleGetEpisodesWithOrdering_run
                sv
                (QB.andWhere CondIsPublic
                   (QB.andWhere (CondPodcastIdIn podcastIds)
                      (generateEpisodeSelects sv (Query.includePodcast query)
                                              (Query.searchAllFieldsText query))))
                query (Query.skip query) (Query.sort query) (Query.take query) w)
      as [qb' [Hc [_ [_ [_ [Hrun _]]]]]].
    rewrite Hrun. exists [EvEpisodeQuery qb']. split; [reflexivity|].
    assert (Hlim : limitingApplied [EvEpisodeQuery qb'] = false).
    { unfold limitingApplied. simpl. rewrite Hc.
      change (hasLimitingCondition
                (QB.andWhere CondIsPublic
                   (QB.andWhere (CondPodcastIdIn podcastIds)
                      (generateEpisodeSelects sv (Query.includePodcast query)
                                              (Query.searchAllFieldsText query))))
              || false = false).
      now rewrite !hasLimitingCondition_andWhere, Hbase. }
    rewrite Hlim. apply Nat.eqb_eq in Hone. rewrite Hone. split; reflexivity.
  - destruct (Query.sort query =? "most-recent") eqn:Hsort.
    + rewrite handleMostRecentEpisodesQuery_run.
      apply String.eqb_eq in Hsort. rewrite Hsort.
      replace (isTopSort "most-recent") with false by reflexivity.
      rewrite andb_false_r.
      assert (Hlast : forall (o o' : Outcome (list Episode.t * nat)) (b : bool) qb',
                 exists evs,
                   trace (snd (if b
                               then (o, record_event (EvEpisodeQuery qb')
                                          (record_event
                                             (EvRecentEpisodeQuery "podcastIds" podcastIds) w))
                               else (o', record_event (EvEpisodeQuery qb')
                                           (record_event
                                              (EvRecentEpisodeQuery "podcastIds" podcastIds)
                                              w))))
                   = trace w ++ evs
                   /\ evs = [EvRecentEpisodeQuery "podcastIds" podcastIds;
                             EvEpisodeQuery qb']).
      { intros o o' b qb'. eexists. split; [|reflexivity].
        destruct b; simpl; now rewrite <- app_assoc. }
      destruct (isNil podcastIds); [|destruct (_ =? 0)%nat; [|destruct (_ <=? 0)%nat]].
      * exists [EvRecentEpisodeQuery "podcastIds" podcastIds]. repeat split.
      * exists [EvRecentEpisodeQuery "podcastIds" podcastIds]. repeat split.
      * exists [EvRecentEpisodeQuery "podcastIds" podcastIds]. repeat split.
      * match goal with
        | |- context [if ?b then (?o, record_event (EvEpisodeQuery ?q) _) else (?o', _)] =>
            destruct (Hlast o o' b q) as [evs [Htrace ->]]
        end.
        eexists. split; [exact Htrace|].
        assert (Hlim : forall ids,
                   limitingApplied
                     [EvRecentEpisodeQuery "podcastIds" podcastIds;
                      EvEpisodeQuery
                        (QB.andWhere (CondIdIn ids)
                           (generateEpisodeSelects sv (Query.includePodcast query)
                                                   (Query.searchAllFieldsText query)))]
                   = false).
        { intros ids. unfold limitingApplied. simpl.
          change (hasLimitingCondition
                    (QB.andWhere (CondIdIn ids)
                       (generateEpisodeSelects sv (Query.includePodcast query)
                                               (Query.searchAllFieldsText query)))
                  || false = false).
          now rewrite hasLimitingCondition_andWhere, Hbase. }
        rewrite Hlim. split; reflexivity.
    + destruct (handleGetEpisodesWithOrdering_run
                  sv
                  (QB.andWhere CondIsPublic
                     (limitEpisodesQuerySize sv (now w)
                        (QB.andWhere (CondPodcastIdIn podcastIds)
                           (generateEpisodeSelects sv (Query.includePodcast query)
                                                   (Query.searchAllFieldsText query)))
                        (10 <? List.length podcastIds)%nat (Query.sort query)))
                  query (Query.skip query) (Query.sort query) (Query.take query) w)
        as [qb' [Hc [_ [_ [_ [Hrun _]]]]]].
      cbn [fst snd]. rewrite Hrun. exists [EvEpisodeQuery qb']. split; [reflexivity|].
      assert (Hlim : limitingApplied [EvEpisodeQuery qb']
                     = (10 <? List.length podcastIds)%nat && isTopSort (Query.sort query)).
      { unfold limitingApplied. simpl. rewrite Hc.
        change (hasLimitingCondition
                  (QB.andWhere CondIsPublic
                     (limitEpisodesQuerySize sv (now w)
                        (QB.andWhere (CondPodcastIdIn podcastIds)
                           (generateEpisodeSelects sv (Query.includePodcast query)
                                                   (Query.searchAllFieldsText query)))
                        (10 <? List.length podcastIds)%nat (Query.sort query)))
                || false
                = (10 <? List.length podcastIds)%nat && isTopSort (Query.sort query)).
        rewrite hasLimitingCondition_andWhere, limitEpisodesQuerySize_limiting,
          hasLimitingCondition_andWhere, Hbase, Hsort.
        simpl. now rewrite !orb_false_r. }
      rewrite Hlim. split; reflexivity.
Qed.

(** *** Public visibility *)

Lemma satisfies_public sv qb w e :
  hasPublicCondition qb = true -> satisfies sv qb w e = true -> Episode.isPublic e = true.
Proof.
  unfold hasPublicCondition, satisfies. intros Hpub Hsat.
  apply andb_true_iff in Hsat. destruct Hsat as [_ Hconds].
  apply existsb_exists in Hpub. destruct Hpub as [c [Hin Hc]].
  rewrite forallb_forall in Hconds. specialize (Hconds c Hin).
  destruct c; try discriminate. exact Hconds.
Qed.

Lemma pageOf_matching sv qb w e :
  (forall column dir rows, Permutation (orderRows sv column dir rows) rows) ->
  In e (pageOf sv qb w) -> In e (matchingEpisodes sv qb w).
Proof.
  intros Hperm Hin. unfold pageOf in Hin. apply In_paginate in Hin.
  destruct (QB.orderBy qb) as [[column dir]|]; [|exact Hin].
  eapply Permutation_in; [apply Hperm | exact Hin].
Qed.

Lemma direct_path_restrictsToPublic sv qb query skip sort take w :
  (forall column dir rows, Permutation (orderRows sv column dir rows) rows) ->
  hasPublicCondition qb = true ->
  restrictsToPublic w (handleGetEpisodesWithOrdering sv qb query skip sort take w).
Proof.
  intros Hperm Hpub.
  destruct (handleGetEpisodesWithOrdering_run sv qb query skip sort take w)
    as [qb' [Hc [_ [_ [_ [Hsnd Hfst]]]]]].
  assert (Hpub' : hasPublicCondition qb' = true).
  { unfold hasPublicCondition in *. now rewrite Hc. }
  split.
  - rewrite (surjective_pairing (handleGetEpisodesWithOrdering sv qb query skip sort take w)).
    rewrite (newEpisodeQueries_of_events w _ _ [EvEpisodeQuery qb'])
      by (rewrite Hsnd; reflexivity).
    simpl. constructor; [exact Hpub' | constructor].
  - unfold episodesOf, allPublic. rewrite Hfst.
    destruct (hasEmptyIn qb); [constructor|]. apply cleanEpisodes_public.
    apply Forall_forall. intros e He.
    apply (pageOf_matching sv qb' w e Hperm) in He.
    apply filter_In in He. destruct He as [_ Hsat].
    exact (satisfies_public sv qb' w e Hpub' Hsat).
Qed.

Lemma recentMatches_no_ids type ids w : isNil ids = true -> recentMatches type ids w = [].
Proof.
  destruct ids; [|discriminate]. intros _. unfold recentMatches, memStr. simpl.
  induction (recentTable type w) as [|r l IH]; simpl; [reflexivity | exact IH].
Qed.

Lemma hasEmptyIn_recency_plan sv includePodcast searchAllFieldsText ids :
  hasEmptyIn (QB.andWhere (CondIdIn ids)
                          (generateEpisodeSelects sv includePodcast searchAllFieldsText))
  = isNil ids.
Proof.
  unfold hasEmptyIn, generateEpisodeSelects. simpl.
  destruct (negb _); simpl; now rewrite !orb_false_r.
Qed.

Lemma recency_path_returnsProjectedEpisodes sv includePodcast searchAllFieldsText
      type ids skip take w :
  let qb := generateEpisodeSelects sv includePodcast searchAllFieldsText in
  returnsProjectedEpisodes sv qb type ids skip take w
    (handleMostRecentEpisodesQuery sv qb type ids skip take w).
Proof.
  intros qb.
  destruct (generateEpisodeSelects_plain sv includePodcast searchAllFieldsText)
    as [_ [Hpub [Hoff [Hlim Hord]]]].
  fold qb in Hpub, Hoff, Hlim, Hord.
  rewrite handleMostRecentEpisodesQuery_run.
  set (page := recentPage type ids skip take w).
  set (qb' := QB.andWhere (CondIdIn (map RecentEpisode.episodeId page)) qb).
  assert (Hpub' : hasPublicCondition qb' = false).
  { subst qb'. now rewrite hasPublicCondition_andWhere, Hpub. }
  assert (Hplan : hasEmptyIn qb' = isNil (map RecentEpisode.episodeId page))
    by apply hasEmptyIn_recency_plan.
  destruct (isNil ids) eqn:Hids;
    [|destruct (List.length (recentMatches type ids w) =? 0)%nat eqn:Htotal;
      [|destruct (List.length (map RecentEpisode.episodeId page) <=? 0)%nat eqn:Hpage]].
  - split.
    + rewrite (newEpisodeQueries_of_events w _ _ [EvRecentEpisodeQuery type ids])
        by reflexivity.
      constructor.
    + intros e _ _ Hin. exfalso.
      subst page. unfold recentPage in Hin.
      rewrite (recentMatches_no_ids type ids w Hids) in Hin. simpl in Hin.
      now rewrite paginate_nil in Hin.
  - split.
    + rewrite (newEpisodeQueries_of_events w _ _ [EvRecentEpisodeQuery type ids])
        by reflexivity.
      constructor.
    + intros e _ _ Hin. exfalso.
      apply Nat.eqb_eq in Htotal. apply length_zero_iff_nil in Htotal.
      subst page. unfold recentPage in Hin. rewrite Htotal in Hin. simpl in Hin.
      now rewrite paginate_nil in Hin.
  - split.
    + rewrite (newEpisodeQueries_of_events w _ _ [EvRecentEpisodeQuery type ids])
        by reflexivity.
      constructor.
    + intros e _ _ Hin. exfalso.
      apply Nat.leb_le in Hpage.
      change (In (Episode.id e) (map RecentEpisode.episodeId page)) in Hin.
      destruct (map RecentEpisode.episodeId page); [contradiction | simpl in Hpage; lia].
  - assert (Hfull : hasEmptyIn qb' = false).
    { rewrite Hplan. apply Nat.leb_gt in Hpage.
      destruct (map RecentEpisode.episodeId page); [simpl in Hpage; lia | reflexivity]. }
    rewrite Hfull. split.
    + rewrite (newEpisodeQueries_of_events
                 w _ _ [EvRecentEpisodeQuery type ids; EvEpisodeQuery qb'])
        by (simpl; now rewrite <- app_assoc).
      simpl. constructor; [exact Hpub' | constructor].
    + intros e He Hsat Hin. unfold episodesOf. simpl.
      apply In_cleanEpisodes. unfold pageOf.
      replace (QB.orderBy qb') with (@None (string * option Direction)) by (symmetry; exact Hord).
      replace (QB.offset qb') with (@None nat) by (symmetry; exact Hoff).
      replace (QB.limit qb') with (@None nat) by (symmetry; exact Hlim).
      unfold paginate, matchingEpisodes. apply filter_In. split; [exact He|].
      subst qb'. rewrite satisfies_andWhere, Hsat. simpl.
      apply existsb_exists. exists (Episode.id e). split; [exact Hin | apply String.eqb_refl].
Qed.

(** C10.  With the sort [most-recent], the listing by category ids and the
    listing by podcast ids (other than exactly one id) execute a plan
    without the public-visibility condition and return every episode,
    public or not, that the base plan accepts and whose id is on the
    requested page of the recency projection.  Every other listing path
    ([getEpisodes], the by-category listing with another sort, the
    by-podcast listing with exactly one id or another sort) executes a
    plan with the condition and returns public episodes only. *)
Theorem recency_paths_do_not_filter_public
        (sv : Services) (query : Query.t) (w : World) :
  (forall column dir rows, Permutation (orderRows sv column dir rows) rows) ->
  let base := generateEpisodeSelects sv (Query.includePodcast query)
                                     (Query.searchAllFieldsText query) in
  let categoriesIds := splitIds (Query.categories query) in
  let podcastIds := splitIds (Query.podcastId query) in
  (Query.sort query = "most-recent" ->
   returnsProjectedEpisodes sv base "categoriesIds" categoriesIds
                            (Query.skip query) (Query.take query) w
                            (getEpisodesByCategoryIds sv query w))
  /\ (Query.sort query = "most-recent" ->
      List.length podcastIds <> 1%nat ->
      returnsProjectedEpisodes sv base "podcastIds" podcastIds
                               (Query.skip query) (Query.take query) w
                               (getEpisodesByPodcastIds sv query w))
  /\ restrictsToPublic w (getEpisodes sv query w)
  /\ (Query.sort query <> "most-recent" ->
      restrictsToPublic w (getEpisodesByCategoryIds sv query w))
  /\ (Query.sort query <> "most-recent" \/ List.length podcastIds = 1%nat ->
      restrictsToPublic w (getEpisodesByPodcastIds sv query w)).
Proof.
  intros Hperm base categoriesIds podcastIds.
  assert (Hdirect : forall qb,
             restrictsToPublic w
               (handleGetEpisodesWithOrdering sv (QB.andWhere CondIsPublic qb) query
                  (Query.skip query) (Query.sort query) (Query.take query) w)).
  { intros qb. apply direct_path_restrictsToPublic; [exact Hperm|].
    rewrite hasPublicCondition_andWhere. apply orb_true_r. }
  split; [|split; [|split; [|split]]].
  - intros Hsort. unfold getEpisodesByCategoryIds, bind, getWorld.
    rewrite Hsort. cbn [String.eqb Ascii.eqb Bool.eqb andb].
    apply recency_path_returnsProjectedEpisodes.
  - intros Hsort Hlen. unfold getEpisodesByPodcastIds, bind, getWorld.
    apply Nat.eqb_neq in Hlen. fold podcastIds. rewrite Hlen.
    rewrite Hsort. cbn [String.eqb Ascii.eqb Bool.eqb andb].
    apply recency_path_returnsProjectedEpisodes.
  - unfold getEpisodes, bind, getWorld. apply Hdirect.
  - intros Hsort. unfold getEpisodesByCategoryIds, bind, getWorld.
    apply String.eqb_neq in Hsort. rewrite Hsort. apply Hdirect.
  - intros Hcase. unfold getEpisodesByPodcastIds, bind, getWorld. fold podcastIds.
    destruct (List.length podcastIds =? 1)%nat eqn:Hone.
    + unfold getEpisodesByPodcastId. apply Hdirect.
    + destruct Hcase as [Hsort|Hlen].
      * apply String.eqb_neq in Hsort. rewrite Hsort. apply Hdirect.
      * apply Nat.eqb_neq in Hone. contradiction.
Qed.

Lemma recency_paths_do_not_filter_public_witness :
  Episode.isPublic Fixture.hiddenEpisode = false
  /\ In (cleaned Fixture.hiddenEpisode)
        (episodesOf (getEpisodesByCategoryIds
                       Fixture.services
                       (Fixture.query "most-recent" (Some "cat1") None)
                       Fixture.recencyWorld))
  /\ allPublic (episodesOf (getEpisodesByCategoryIds
                              Fixture.services
                              (Fixture.query "top-past-week" (Some "cat1") None)
                              Fixture.recencyWorld)).
Proof.
  assert (Hperm : forall column dir rows,
             Permutation (orderRows Fixture.services column dir rows) rows)
    by (intros; apply Permutation_refl).
  split; [reflexivity|]. split.
  - destruct (recency_paths_do_not_filter_public
                Fixture.services (Fixture.query "most-recent" (Some "cat1") None)
                Fixture.recencyWorld Hperm) as (Hrecent & _).
    destruct (Hrecent eq_refl) as [_ Hincl].
    apply Hincl.
    + right. left. reflexivity.
    + reflexivity.
    + left. reflexivity.
  - destruct (recency_paths_do_not_filter_public
                Fixture.services (Fixture.query "top-past-week" (Some "cat1") None)
                Fixture.recencyWorld Hperm) as (_ & _ & _ & Hother & _).
    apply Hother. discriminate.
Defined.

(** * Further properties of the controllers *)

(** ** Episode lookup *)

Lemma find_id_exists (id : string) (w : World) :
  episodeExists id w = isSome (find (fun e => Episode.id e =? id) (episodes w)).
Proof. apply existsb_find. Qed.

(** X1.  [getEpisode] fails exactly when no episode has the id, and then
    with [NotFound('Episode not found')]; what it returns otherwise is a
    row of the episode table with the podcast and the title of the episode
    that has the id. *)
Theorem getEpisode_result (id : string) (w : World) :
  match getEpisode id w with
  | inl err => err = NotFound "Episode not found" /\ episodeExists id w = false
  | inr found =>
      episodeExists id w = true
      /\ In found (episodes w)
      /\ exists requested,
          find (fun e => Episode.id e =? id) (episodes w) = Some requested
          /\ Episode.podcastId found = Episode.podcastId requested
          /\ Episode.title found = Episode.title requested
  end.
Proof.
  unfold getEpisode. rewrite find_id_exists.
  destruct (find (fun e => Episode.id e =? id) (episodes w)) as [requested|] eqn:Hfind;
    [|split; reflexivity].
  pose proof (find_some _ _ Hfind) as [Hin _].
  destruct (negb (Episode.isPublic requested)).
  - unfold findPublicVersion.
    match goal with
    | |- context [find ?f (episodes w)] =>
        destruct (find f (episodes w)) as [publicEpisode|] eqn:Hpub
    end.
    + apply find_some in Hpub. destruct Hpub as [Hin' Hsame]. cbv beta in Hsame.
      apply andb_true_iff in Hsame. destruct Hsame as [Hsame Htitle].
      apply andb_true_iff in Hsame. destruct Hsame as [_ Hpod].
      apply String.eqb_eq in Htitle, Hpod.
      split; [reflexivity|]. split; [exact Hin'|].
      exists requested. repeat split; assumption.
    + split; [reflexivity|]. split; [exact Hin|]. exists requested. repeat split.
  - split; [reflexivity|]. split; [exact Hin|]. exists requested. repeat split.
Qed.



(** ** Comma-separated ids *)

Lemma split_not_nil (s : string) : split s <> [].
Proof.
  destruct s as [|c rest]; simpl; [discriminate|].
  destruct (c =? ",")%char; [discriminate|].
  destruct (split rest); discriminate.
Qed.

Lemma split_length (s : string) : List.length (split s) = S (countCommas s).
Proof.
  induction s as [|c rest IH]; simpl; [reflexivity|].
  destruct (c =? ",")%char; simpl; [now rewrite IH|].
  pose proof (split_not_nil rest) as Hne.
  destruct (split rest) as [|piece pieces]; [contradiction|]. exact IH.
Qed.

(** X3.  [split] is the inverse of joining with commas: the pieces joined
    by [","] give the string back, no piece contains a comma, and there is
    one piece more than there are commas (so the empty string gives the
    one empty piece, and a trailing comma a trailing empty piece). *)
Theorem split_joins_back (s : string) :
  String.concat "," (split s) = s
  /\ Forall (fun piece => countCommas piece = 0%nat) (split s)
  /\ List.length (split s) = S (countCommas s).
Proof.
  induction s as [|c rest [IHjoin [IHpieces IHlen]]]; simpl.
  - repeat split. repeat constructor.
  - destruct (c =? ",")%char eqn:Hc.
    + apply Ascii.eqb_eq in Hc. subst c. simpl.
      pose proof (split_not_nil rest) as Hne.
      destruct (split rest) as [|piece pieces] eqn:Hsplit; [contradiction|].
      split; [now rewrite IHjoin|]. split.
      * constructor; [reflexivity | exact IHpieces].
      * now rewrite IHlen.
    + pose proof (split_not_nil rest) as Hne.
      destruct (split rest) as [|piece pieces] eqn:Hsplit; [contradiction|].
      split; [|split].
      * rewrite <- IHjoin. simpl. destruct pieces; reflexivity.
      * inversion IHpieces; subst. constructor; [|assumption].
        simpl. rewrite Hc. assumption.
      * simpl in *. exact IHlen.
Qed.

(** X4.  The id list of a listing request is empty for an absent or empty
    parameter, and has exactly one id exactly when the parameter is a
    non-empty string without comma. *)
Theorem splitIds_single (x : option string) :
  splitIds None = []
  /\ splitIds (Some EmptyString) = []
  /\ (List.length (splitIds x) =? 1)%nat
     = match x with
       | Some s => negb (s =? EmptyString) && (countCommas s =? 0)%nat
       | None => false
       end.
Proof.
  split; [reflexivity|]. split; [reflexivity|].
  destruct x as [s|]; [|reflexivity].
  unfold splitIds, truthy.
  destruct (s =? EmptyString) eqn:Hempty; [reflexivity|]. simpl.
  now rewrite split_length.
Qed.

(** ** User controller *)

(** X5.  [deleteUser] fails exactly when no user has the id, with
    [NotFound('User not found')]; otherwise it removes that user and no
    other, after which the id is gone: [getUser] resolves to [undefined]
    without throwing, and a second [deleteUser] throws [NotFound]. *)
Theorem deleteUser_removes_the_user (User : Type) (userId : User -> string)
        (id : string) (users : list User) :
  match deleteUser User userId id users with
  | inl err =>
      err = NotFound "User not found" /\ forall u, In u users -> userId u <> id
  | inr (user, rest) =>
      userId user = id
      /\ In user users
      /\ (forall u, In u rest <-> In u users /\ userId u <> id)
      /\ getUser User userId id rest = inr None
      /\ deleteUser User userId id rest = inl (NotFound "User not found")
  end.
Proof.
  unfold deleteUser, findOneUser.
  destruct (find (fun u => userId u =? id) users) as [user|] eqn:Hfind.
  - apply find_some in Hfind. destruct Hfind as [Hin Hid]. apply String.eqb_eq in Hid.
    rewrite Hid.
    assert (Hgone : find (fun u => userId u =? id)
                         (filter (fun u => negb (userId u =? id)) users) = None).
    { destruct (find _ (filter _ users)) as [u|] eqn:Hf; [|reflexivity].
      apply find_some in Hf. destruct Hf as [Hu Huid].
      apply filter_In in Hu. destruct Hu as [_ Hneq].
      rewrite Huid in Hneq. discriminate. }
    split; [reflexivity|]. split; [exact Hin|]. split; [|split].
    + intros u. rewrite filter_In, negb_true_iff, String.eqb_neq. reflexivity.
    + unfold getUser, findOneUser. now rewrite Hgone.
    + now rewrite Hgone.
  - split; [reflexivity|].
    intros u Hu Heq. pose proof (find_none _ _ Hfind u Hu) as Hneq. simpl in Hneq.
    rewrite Heq, String.eqb_refl in Hneq. discriminate.
Qed.

(** ** Descriptions in list views *)

Lemma substring_prefix_length (n : nat) (s : string) :
  (String.length (substring 0 n s) <= n)%nat.
Proof.
  revert s. induction n as [|n IH]; intros s; destruct s as [|c rest]; simpl; try lia.
  specialize (IH rest). lia.
Qed.

Lemma substring_prefix_all (n : nat) (s : string) :
  (String.length s <= n)%nat -> substring 0 n s = s.
Proof.
  revert s. induction n as [|n IH]; intros s Hlen; destruct s as [|c rest]; simpl in *;
    try reflexivity; try lia.
  rewrite IH; [reflexivity | lia].
Qed.

Lemma truncateDescription_bounded (description : option string) :
  exists d, truncateDescription description = Some d /\ (String.length d <= 2500)%nat.
Proof.
  unfold truncateDescription. eexists. split; [reflexivity|].
  destruct (truthy description); [|simpl; lia].
  destruct description as [d|]; [apply substring_prefix_length | simpl; lia].
Qed.

Lemma cleanEpisodes_bounded (rows : list Episode.t) :
  Forall descriptionBounded (cleanEpisodes rows).
Proof.
  unfold cleanEpisodes. apply Forall_map. apply Forall_forall. intros e _.
  unfold descriptionBounded. simpl. apply truncateDescription_bounded.
Qed.

Lemma handleGetEpisodesWithOrdering_bounded sv qb query skip sort take w :
  Forall descriptionBounded
         (episodesOf (handleGetEpisodesWithOrdering sv qb query skip sort take w)).
Proof.
  destruct (handleGetEpisodesWithOrdering_episodes sv qb query skip sort take w)
    as [qb' [_ [_ [_ [_ Hrun]]]]].
  rewrite Hrun. destruct (hasEmptyIn qb); [constructor | apply cleanEpisodes_bounded].
Qed.

Lemma handleMostRecentEpisodesQuery_bounded sv qb type ids skip take w :
  Forall descriptionBounded
         (episodesOf (handleMostRecentEpisodesQuery sv qb type ids skip take w)).
Proof.
  rewrite handleMostRecentEpisodesQuery_run.
  destruct (isNil ids); [constructor|].
  destruct (_ =? 0)%nat; [constructor|].
  destruct (_ <=? 0)%nat; [constructor|].
  destruct (hasEmptyIn _); [constructor|].
  apply cleanEpisodes_bounded.
Qed.

(** X6.  Every episode that one of the three listing entry points returns
    carries a description, of at most 2500 characters. *)
Theorem listings_truncate_descriptions (sv : Services) (query : Query.t) (w : World) :
  Forall descriptionBounded (episodesOf (getEpisodes sv query w))
  /\ Forall descriptionBounded (episodesOf (getEpisodesByCategoryIds sv query w))
  /\ Forall descriptionBounded (episodesOf (getEpisodesByPodcastIds sv query w)).
Proof.
  split; [|split].
  - unfold getEpisodes, bind, getWorld. apply handleGetEpisodesWithOrdering_bounded.
  - unfold getEpisodesByCategoryIds, bind, getWorld.
    destruct (Query.sort query =? "most-recent").
    + apply handleMostRecentEpisodesQuery_bounded.
    + apply handleGetEpisodesWithOrdering_bounded.
  - unfold getEpisodesByPodcastIds, bind, getWorld.
    destruct (_ =? 1)%nat; [apply handleGetEpisodesWithOrdering_bounded|].
    destruct (Query.sort query =? "most-recent").
    + apply handleMostRecentEpisodesQuery_bounded.
    + apply handleGetEpisodesWithOrdering_bounded.
Qed.

Lemma substring_prefix_exact (n : nat) (s : string) :
  (n <= String.length s)%nat -> String.length (substring 0 n s) = n.
Proof.
  revert s. induction n as [|n IH]; intros s Hs; destruct s as [|a s'];
    simpl in *; try reflexivity; try lia.
  rewrite IH; [reflexivity | lia].
Qed.

Lemma substring_prefix_is_prefix (n : nat) (s : string) : prefix (substring 0 n s) s = true.
Proof.
  revert s. induction n as [|n IH]; intros s; destruct s as [|a s'];
    simpl; try reflexivity.
  destruct (ascii_dec a a) as [_|Hne]; [apply IH | now elim Hne].
Qed.

(** X7.  [cleanEpisodes] returns the episodes it was given, in order, each
    changed in its description at most: a missing description has become
    the empty string, a description of at most 2500 characters is as it
    was, a longer one has become its first 2500 characters; cleaning
    twice is cleaning once. *)
Theorem cleanEpisodes_spec (rows : list Episode.t) :
  Forall2 (fun e e' =>
             e' = Episode.set_description (Episode.description e') e
             /\ match Episode.description e with
                | None => Episode.description e' = Some EmptyString
                | Some d =>
                    if (String.length d <=? 2500)%nat
                    then Episode.description e' = Some d
                    else exists d', Episode.description e' = Some d'
                                    /\ String.length d' = 2500%nat
                                    /\ prefix d' d = true
                end)
          rows (cleanEpisodes rows)
  /\ map Episode.id (cleanEpisodes rows) = map Episode.id rows
  /\ cleanEpisodes (cleanEpisodes rows) = cleanEpisodes rows.
Proof.
  assert (Htwice : forall description,
             truncateDescription (truncateDescription description)
             = truncateDescription description).
  { intros description.
    destruct (truncateDescription_bounded description) as [d [Hd Hlen]].
    rewrite Hd. unfold truncateDescription, truthy.
    destruct d as [|c rest]; [reflexivity|]. simpl negb. cbv iota.
    now rewrite (substring_prefix_all 2500 (String c rest) Hlen). }
  split; [|split].
  - induction rows as [|e rows IH]; simpl; constructor; [|exact IH].
    split; [reflexivity|].
    simpl. unfold truncateDescription, truthy.
    destruct (Episode.description e) as [d|]; [|reflexivity].
    destruct (String.length d <=? 2500)%nat eqn:Hlen.
    + apply Nat.leb_le in Hlen.
      destruct d as [|c rest]; [reflexivity|]. simpl negb. cbv iota.
      now rewrite (substring_prefix_all 2500 (String c rest) Hlen).
    + apply Nat.leb_gt in Hlen.
      destruct d as [|c rest]; [simpl in Hlen; lia|]. simpl negb. cbv iota.
      eexists. split; [reflexivity|]. split.
      * apply substring_prefix_exact. lia.
      * apply substring_prefix_is_prefix.
  - unfold cleanEpisodes. rewrite map_map. reflexivity.
  - unfold cleanEpisodes. rewrite map_map. apply map_ext. intros e.
    unfold Episode.set_description. simpl. now rewrite Htwice.
Qed.

(** ** Pages and counts *)

Lemma satisfies_same_plan sv qb qb' w e :
  QB.joins qb' = QB.joins qb -> QB.conditions qb' = QB.conditions qb ->
  satisfies sv qb' w e = satisfies sv qb w e.
Proof. intros Hj Hc. unfold satisfies. now rewrite Hj, Hc. Qed.

Lemma matchingEpisodes_same_plan sv qb qb' w :
  QB.joins qb' = QB.joins qb -> QB.conditions qb' = QB.conditions qb ->
  matchingEpisodes sv qb' w = matchingEpisodes sv qb w.
Proof.
  intros Hj Hc. unfold matchingEpisodes. apply filter_ext. intros e.
  now apply satisfies_same_plan.
Qed.

Lemma paginate_length {A} (offset : option nat) (n : nat) (rows : list A) :
  (List.length (paginate offset (Some (S n)) rows) <= S n)%nat.
Proof. unfold paginate. apply firstn_le_length. Qed.

Lemma paginate_length_le {A} (offset limit : option nat) (rows : list A) :
  (List.length (paginate offset limit rows) <= List.length rows)%nat.
Proof.
  unfold paginate.
  assert (Hrest : (List.length (match offset with
                                | Some n => skipn n rows
                                | None => rows
                                end) <= List.length rows)%nat).
  { destruct offset as [k|]; [rewrite length_skipn|]; lia. }
  destruct limit as [[|n]|]; try exact Hrest.
  rewrite length_firstn. lia.
Qed.

Lemma cleanEpisodes_length rows : List.length (cleanEpisodes rows) = List.length rows.
Proof. unfold cleanEpisodes. apply length_map. Qed.

Lemma pageOf_length sv qb w :
  (forall column dir rows, Permutation (orderRows sv column dir rows) rows) ->
  (List.length (pageOf sv qb w) <= List.length (matchingEpisodes sv qb w))%nat
  /\ (match QB.offset qb with Some (S _) => False | _ => True end ->
      match QB.limit qb with Some (S _) => False | _ => True end ->
      List.length (pageOf sv qb w) = List.length (matchingEpisodes sv qb w)).
Proof.
  intros Hperm. unfold pageOf.
  set (ordered := match QB.orderBy qb with
                  | Some (column, dir) => orderRows sv column dir (matchingEpisodes sv qb w)
                  | None => matchingEpisodes sv qb w
                  end).
  assert (Hlen : List.length ordered = List.length (matchingEpisodes sv qb w)).
  { subst ordered. destruct (QB.orderBy qb) as [[column dir]|]; [|reflexivity].
    apply Permutation_length, Hperm. }
  split.
  - rewrite <- Hlen. apply paginate_length_le.
  - intros Hoffset Hlimit. rewrite <- Hlen. unfold paginate.
    destruct (QB.offset qb) as [[|k]|], (QB.limit qb) as [[|n]|];
      try contradiction; reflexivity.
Qed.

(** X8.  On a direct path whose plan the storage accepts, the count
    returned is the number of episodes of the table that pass every join
    and every condition of the plan, whatever [skip] and [take] are; the
    page is never longer than the count, it is at most [take] episodes
    long for a positive [take], and it holds every counted episode when
    neither a positive [skip] nor a positive [take] is given ([take = 0]
    writes no limit). *)
Theorem handleGetEpisodesWithOrdering_page
        (sv : Services) (qb : QB.t) (query : Query.t) (skip : option nat)
        (sort : string) (take : option nat) (w : World) :
  hasEmptyIn qb = false ->
  (forall column dir rows, Permutation (orderRows sv column dir rows) rows) ->
  let run := handleGetEpisodesWithOrdering sv qb query skip sort take w in
  countOf run
  = List.length
      (filter (fun e => forallb (fun j => evalJoin (podcasts w) j e) (QB.joins qb)
                        && forallb (fun c => evalCondition sv c e) (QB.conditions qb))
              (episodes w))
  /\ (List.length (episodesOf run) <= countOf run)%nat
  /\ match take with
     | Some (S n) => (List.length (episodesOf run) <= S n)%nat
     | Some O | None =>
         match skip with
         | Some (S _) => True
         | Some O | None => List.length (episodesOf run) = countOf run
         end
     end.
Proof.
  intros Hplan Hperm run. subst run.
  destruct (handleGetEpisodesWithOrdering_run sv qb query skip sort take w)
    as [qb' [Hc [Hj [Hoffset [Hlimit [_ Hfst]]]]]].
  rewrite Hplan in Hfst. unfold countOf, episodesOf. rewrite Hfst.
  rewrite cleanEpisodes_length.
  destruct (pageOf_length sv qb' w Hperm) as [Hle Hall].
  split; [|split].
  - rewrite (matchingEpisodes_same_plan sv qb qb' w Hj Hc). reflexivity.
  - exact Hle.
  - destruct take as [[|n]|].
    + destruct skip as [[|k]|]; try exact I;
        apply Hall; rewrite ?Hoffset, ?Hlimit; exact I.
    + unfold pageOf. rewrite Hlimit. apply paginate_length.
    + destruct skip as [[|k]|]; try exact I;
        apply Hall; rewrite ?Hoffset, ?Hlimit; exact I.
Qed.

Lemma handleGetEpisodesWithOrdering_page_witness :
  let plan := generateEpisodeSelects Fixture.services false None in
  let run take := handleGetEpisodesWithOrdering
                    Fixture.services plan (Fixture.query "most-recent" None None)
                    (Some 0%nat) "most-recent" take Samples.republishedWorld in
  hasEmptyIn plan = false
  /\ (countOf (run (Some 1%nat)) = 2%nat
      /\ (List.length (episodesOf (run (Some 1%nat))) <= 1)%nat)
  /\ (countOf (run (Some 0%nat)) = 2%nat
      /\ List.length (episodesOf (run (Some 0%nat))) = 2%nat).
Proof.
  intros plan run.
  assert (Hplan : hasEmptyIn plan = false) by reflexivity.
  pose proof (handleGetEpisodesWithOrdering_page
                Fixture.services plan (Fixture.query "most-recent" None None)
                (Some 0%nat) "most-recent" (Some 1%nat) Samples.republishedWorld
                Hplan (fun _ _ rows => Permutation_refl rows)) as [Hcount1 [_ Hpage1]].
  pose proof (handleGetEpisodesWithOrdering_page
                Fixture.services plan (Fixture.query "most-recent" None None)
                (Some 0%nat) "most-recent" (Some 0%nat) Samples.republishedWorld
                Hplan (fun _ _ rows => Permutation_refl rows)) as [Hcount0 [_ Hpage0]].
  split; [exact Hplan|]. split; split.
  - exact Hcount1.
  - exact Hpage1.
  - exact Hcount0.
  - exact (eq_trans Hpage0 Hcount0).
Defined.

Lemma filter_length_le {A} (f g : A -> bool) (l : list A) :
  (forall x, f x = true -> g x = true) ->
  (List.length (filter f l) <= List.length (filter g l))%nat.
Proof.
  intros Himp. induction l as [|x l IH]; simpl; [lia|].
  destruct (f x) eqn:Hf.
  - rewrite (Himp x Hf). simpl. lia.
  - destruct (g x); simpl; lia.
Qed.

Lemma NoDup_map_filter {A B} (g : A -> B) (f : A -> bool) (l : list A) :
  NoDup (map g l) -> NoDup (map g (filter f l)).
Proof.
  induction l as [|x l IH]; simpl; intros Hnd; [constructor|].
  inversion Hnd as [|? ? Hnotin Hnd']; subst.
  destruct (f x); simpl; [|now apply IH].
  constructor; [|now apply IH].
  intros Hin. apply Hnotin. apply in_map_iff in Hin. destruct Hin as [y [Hy Hin]].
  apply filter_In in Hin. destruct Hin as [Hin _].
  rewrite <- Hy. now apply in_map.
Qed.

Lemma memStr_In (x : string) (l : list string) : memStr x l = true <-> In x l.
Proof.
  unfold memStr. rewrite existsb_exists. split.
  - intros [y [Hy Heq]]. apply String.eqb_eq in Heq. now subst.
  - intros Hin. exists x. split; [exact Hin | apply String.eqb_refl].
Qed.

Lemma recency_plan_results sv includePodcast searchAllFieldsText ids w :
  let qb := QB.andWhere (CondIdIn ids)
                        (generateEpisodeSelects sv includePodcast searchAllFieldsText) in
  pageOf sv qb w = matchingEpisodes sv qb w
  /\ forall e, In e (matchingEpisodes sv qb w) -> In (Episode.id e) ids.
Proof.
  intros qb.
  destruct (generateEpisodeSelects_plain sv includePodcast searchAllFieldsText)
    as [_ [_ [Hoff [Hlim Hord]]]].
  split.
  - unfold pageOf.
    replace (QB.orderBy qb) with (@None (string * option Direction))
      by (symmetry; exact Hord).
    replace (QB.offset qb) with (@None nat) by (symmetry; exact Hoff).
    replace (QB.limit qb) with (@None nat) by (symmetry; exact Hlim).
    reflexivity.
  - intros e He. apply filter_In in He. destruct He as [_ Hsat].
    subst qb. rewrite satisfies_andWhere in Hsat.
    apply andb_true_iff in Hsat. destruct Hsat as [_ Hin]. simpl in Hin.
    now apply memStr_In.
Qed.

Lemma orderByPubDateDesc_In r l : In r (orderByPubDateDesc l) -> In r l.
Proof.
  assert (Hinsert : forall x rows, In r (insertByPubDateDesc x rows) -> r = x \/ In r rows).
  { intros x rows. induction rows as [|y rows IH]; simpl.
    - intros [<-|[]]. now left.
    - destruct (_ <=? _)%Z; simpl.
      + intros [<-|[<-|Hin]]; [now left | right; now left | right; now right].
      + intros [<-|Hin]; [right; now left|].
        destruct (IH Hin) as [->|Hin']; [now left | right; now right]. }
  unfold orderByPubDateDesc. induction l as [|x l IH]; simpl; [tauto|].
  intros Hin. destruct (Hinsert _ _ Hin) as [->|Hin']; [now left | right; now apply IH].
Qed.

(** The episodes the recency-index-assisted path returns, when the id
    list is not empty. *)
Lemma handleMostRecentEpisodesQuery_results sv includePodcast searchAllFieldsText
      type ids skip take w :
  ids <> [] ->
  let run := handleMostRecentEpisodesQuery
               sv (generateEpisodeSelects sv includePodcast searchAllFieldsText)
               type ids skip take w in
  let pageIds := map RecentEpisode.episodeId (recentPage type ids skip take w) in
  countOf run = List.length (recentMatches type ids w)
  /\ (episodesOf run = []
      \/ episodesOf run
         = cleanEpisodes
             (matchingEpisodes
                sv (QB.andWhere (CondIdIn pageIds)
                                (generateEpisodeSelects sv includePodcast searchAllFieldsText))
                w)).
Proof.
  intros Hids run pageIds. subst run. rewrite handleMostRecentEpisodesQuery_run.
  rewrite (isNil_false ids Hids).
  destruct (List.length (recentMatches type ids w) =? 0)%nat eqn:Hzero.
  - apply Nat.eqb_eq in Hzero. rewrite Hzero. split; [reflexivity | now left].
  - destruct (_ <=? 0)%nat eqn:Hpage; [split; [reflexivity | now left]|].
    rewrite hasEmptyIn_recency_plan. fold pageIds in Hpage |- *.
    destruct pageIds as [|pageId rest] eqn:Hpaged; [discriminate|]. cbn [isNil].
    split; [reflexivity|]. right. unfold episodesOf. cbn [fst].
    now destruct (recency_plan_results sv includePodcast searchAllFieldsText
                                       (pageId :: rest) w)
      as [-> _].
Qed.

(** X9.  On the recency-index-assisted path, as the two entry points call
    it with at least one id, the count returned is the number of rows of
    the projection of the grouping whose group is one of the ids, whatever
    [skip] and [take] are and however many episodes come back, and every
    episode that comes back is the episode of such a row. *)
Theorem handleMostRecentEpisodesQuery_page
        (sv : Services) (includePodcast : bool) (searchAllFieldsText : option string)
        (type : string) (ids : list string) (skip take : option nat) (w : World) :
  ids <> [] ->
  let run := handleMostRecentEpisodesQuery
               sv (generateEpisodeSelects sv includePodcast searchAllFieldsText)
               type ids skip take w in
  let table := if type =? "categoriesIds"
               then recentEpisodesByCategory w
               else recentEpisodesByPodcast w in
  countOf run
  = List.length (filter (fun r => existsb (fun id => id =? RecentEpisode.groupId r) ids)
                        table)
  /\ Forall (fun e => exists r,
                 In r table
                 /\ In (RecentEpisode.groupId r) ids
                 /\ RecentEpisode.episodeId r = Episode.id e)
            (episodesOf run).
Proof.
  intros Hids run table.
  destruct (handleMostRecentEpisodesQuery_results
              sv includePodcast searchAllFieldsText type ids skip take w Hids)
    as [Hcount Hpage].
  fold run in Hcount, Hpage. split; [exact Hcount|].
  destruct Hpage as [->| ->]; [constructor|].
  unfold cleanEpisodes. apply Forall_map. apply Forall_forall. intros e He. simpl.
  destruct (recency_plan_results
              sv includePodcast searchAllFieldsText
              (map RecentEpisode.episodeId (recentPage type ids skip take w)) w)
    as [_ Hin].
  apply Hin in He. apply in_map_iff in He. destruct He as [r [Hr Hrow]].
  unfold recentPage in Hrow. apply In_paginate in Hrow.
  apply orderByPubDateDesc_In in Hrow. apply filter_In in Hrow.
  destruct Hrow as [Hrow Hgroup]. exists r. split; [exact Hrow|].
  split; [now apply memStr_In | exact Hr].
Qed.

Lemma handleMostRecentEpisodesQuery_page_witness :
  let run := handleMostRecentEpisodesQuery
               Fixture.services (generateEpisodeSelects Fixture.services false None)
               "categoriesIds" ["cat1"; "cat2"] (Some 0%nat) (Some 0%nat)
               Fixture.recencyWorld in
  countOf run = 1%nat
  /\ map Episode.id (episodesOf run) = ["ep2"]
  /\ Forall (fun e => exists r,
                 In r (recentEpisodesByCategory Fixture.recencyWorld)
                 /\ In (RecentEpisode.groupId r) ["cat1"; "cat2"]
                 /\ RecentEpisode.episodeId r = Episode.id e)
            (episodesOf run).
Proof.
  intros run.
  assert (Hids : ["cat1"; "cat2"] <> @nil string) by discriminate.
  destruct (handleMostRecentEpisodesQuery_page
              Fixture.services false None "categoriesIds" ["cat1"; "cat2"]
              (Some 0%nat) (Some 0%nat) Fixture.recencyWorld Hids)
    as [Hcount Hpage].
  split; [exact Hcount|]. split; [reflexivity | exact Hpage].
Defined.

(** X10.  With episode ids a primary key and a positive [take], the
    recency-index-assisted path returns at most [take] episodes, although
    its episode query carries no limit of its own. *)
Theorem handleMostRecentEpisodesQuery_at_most_take
        (sv : Services) (includePodcast : bool) (searchAllFieldsText : option string)
        (type : string) (ids : list string) (skip : option nat) (n : nat) (w : World) :
  uniqueEpisodeIds w ->
  (0 < n)%nat ->
  (List.length (episodesOf (handleMostRecentEpisodesQuery
                              sv (generateEpisodeSelects sv includePodcast searchAllFieldsText)
                              type ids skip (Some n) w)) <= n)%nat.
Proof.
  intros Hunique Hpos. destruct n as [|n]; [lia|].
  rewrite handleMostRecentEpisodesQuery_run.
  destruct (isNil ids); [simpl; lia|].
  destruct (_ =? 0)%nat; [simpl; lia|].
  destruct (_ <=? 0)%nat; [simpl; lia|].
  destruct (hasEmptyIn _); [simpl; lia|].
  unfold episodesOf. cbn [fst]. rewrite cleanEpisodes_length.
  set (pageIds := map RecentEpisode.episodeId (recentPage type ids skip (Some (S n)) w)).
  destruct (recency_plan_results sv includePodcast searchAllFieldsText pageIds w)
    as [Hpage Hids].
  rewrite Hpage.
  assert (Hlen : (List.length pageIds <= S n)%nat).
  { subst pageIds. rewrite length_map. unfold recentPage. apply paginate_length. }
  eapply Nat.le_trans; [|exact Hlen].
  rewrite <- (length_map Episode.id).
  apply NoDup_incl_length.
  - unfold matchingEpisodes. apply NoDup_map_filter. exact Hunique.
  - intros x Hx. apply in_map_iff in Hx. destruct Hx as [e [<- He]]. now apply Hids.
Qed.

Lemma handleMostRecentEpisodesQuery_at_most_take_witness :
  let run := handleMostRecentEpisodesQuery
               Fixture.services (generateEpisodeSelects Fixture.services false None)
               "podcastIds" ["pod1"; "pod2"] (Some 0%nat) (Some 1%nat)
               Samples.busyWorld in
  uniqueEpisodeIds Samples.busyWorld
  /\ countOf run = 2%nat
  /\ episodesOf run <> []
  /\ (List.length (episodesOf run) <= 1)%nat.
Proof.
  intros run.
  assert (H : uniqueEpisodeIds Samples.busyWorld).
  { unfold uniqueEpisodeIds. simpl. repeat constructor; simpl; intuition discriminate. }
  split; [exact H|]. split; [reflexivity|]. split; [discriminate|].
  exact (handleMostRecentEpisodesQuery_at_most_take
           Fixture.services false None "podcastIds" ["pod1"; "pod2"] (Some 0%nat) 1%nat
           Samples.busyWorld H (Nat.lt_0_succ 0)).
Defined.

(** ** What the direct paths return *)

Lemma satisfies_andWhere_inv sv c qb w e :
  satisfies sv (QB.andWhere c qb) w e = true ->
  satisfies sv qb w e = true /\ evalCondition sv c e = true.
Proof. rewrite satisfies_andWhere. apply andb_true_iff. Qed.

(** An episode that passes the plan [limitEpisodesQuerySize] returns, with
    limiting enabled, is inside the window of the sort. *)
Lemma limitEpisodesQuerySize_window sv nowMs qb sort w e :
  satisfies sv (limitEpisodesQuerySize sv nowMs qb true sort) w e = true ->
  satisfies sv qb w e = true /\ inWindow sv nowMs sort e = true.
Proof.
  unfold limitEpisodesQuerySize, inWindow.
  repeat match goal with
         | |- context [if ?s =? ?lit then _ else _] =>
             destruct (s =? lit);
             [intros Hsat; apply satisfies_andWhere_inv in Hsat; exact Hsat|]
         end.
  intros Hsat. split; [exact Hsat | reflexivity].
Qed.

(** The episodes of a direct page are cleaned episodes of the table that
    satisfy the plan. *)
Lemma direct_path_results sv qb query skip sort take w e :
  (forall column dir rows, Permutation (orderRows sv column dir rows) rows) ->
  In e (episodesOf (handleGetEpisodesWithOrdering sv qb query skip sort take w)) ->
  exists e0, e = cleaned e0 /\ In e0 (episodes w) /\ satisfies sv qb w e0 = true.
Proof.
  intros Hperm.
  destruct (handleGetEpisodesWithOrdering_episodes sv qb query skip sort take w)
    as [qb' [Hc [Hj [_ [_ Hrun]]]]].
  rewrite Hrun. destruct (hasEmptyIn qb); [intros []|]. unfold cleanEpisodes.
  intros Hin. apply in_map_iff in Hin. destruct Hin as [e0 [He He0]].
  apply (pageOf_matching sv qb' w e0 Hperm) in He0.
  apply filter_In in He0. destruct He0 as [Hin0 Hsat].
  exists e0. split; [now symmetry|]. split; [exact Hin0|].
  now rewrite <- (satisfies_same_plan sv qb qb' w e0 Hj Hc).
Qed.

(** X11.  [getEpisodes] returns only public episodes inside the window of
    the sort: with pageviews in the period for the six popularity sorts;
    for [most-recent], published later than the whole second of the
    instant one local calendar day before now.  The by-category listing
    does the same for every sort but [most-recent]. *)
Theorem listings_stay_inside_the_window (sv : Services) (query : Query.t) (w : World) :
  (forall column dir rows, Permutation (orderRows sv column dir rows) rows) ->
  let inside e := Episode.isPublic e = true
                  /\ inWindow sv (now w) (Query.sort query) e = true in
  Forall inside (episodesOf (getEpisodes sv query w))
  /\ (Query.sort query <> "most-recent" ->
      Forall inside (episodesOf (getEpisodesByCategoryIds sv query w))).
Proof.
  intros Hperm inside.
  assert (Hdirect : forall qb,
             Forall inside
                    (episodesOf
                       (handleGetEpisodesWithOrdering
                          sv
                          (QB.andWhere CondIsPublic
                             (limitEpisodesQuerySize sv (now w) qb true (Query.sort query)))
                          query (Query.skip query) (Query.sort query)
                          (Query.take query) w))).
  { intros qb. apply Forall_forall. intros e He.
    apply (direct_path_results sv _ query _ _ _ w e Hperm) in He.
    destruct He as [e0 [-> [_ Hsat]]].
    apply satisfies_andWhere_inv in Hsat. destruct Hsat as [Hsat Hpublic].
    apply limitEpisodesQuerySize_window in Hsat. destruct Hsat as [_ Hwindow].
    split; [exact Hpublic | exact Hwindow]. }
  split.
  - unfold getEpisodes, bind, getWorld. apply Hdirect.
  - intros Hsort. unfold getEpisodesByCategoryIds, bind, getWorld.
    apply String.eqb_neq in Hsort. rewrite Hsort. apply Hdirect.
Qed.

Lemma listings_stay_inside_the_window_witness :
  let popular := getEpisodes Fixture.services (Fixture.query "top-past-week" None None)
                             Samples.popularWorld in
  let recent := getEpisodes Fixture.services (Fixture.query "most-recent" None None)
                            Samples.popularWorld in
  let byCategory := getEpisodesByCategoryIds
                      Fixture.services (Fixture.query "top-past-week" (Some "cat1") None)
                      Samples.popularWorld in
  (map Episode.id (episodesOf popular) = ["hit"]
   /\ Forall (fun e => Episode.isPublic e = true
                       /\ (0 <? Episode.pastWeekTotalUniquePageviews e)%Z = true)
             (episodesOf popular))
  /\ (map Episode.id (episodesOf recent) = ["fresh"]
      /\ Forall (fun e => Episode.isPublic e = true
                          /\ (Fixture.clock - 24 * Fixture.hour <? Episode.pubDate e)%Z = true)
                (episodesOf recent))
  /\ (map Episode.id (episodesOf byCategory) = ["hit"]
      /\ Forall (fun e => Episode.isPublic e = true
                          /\ (0 <? Episode.pastWeekTotalUniquePageviews e)%Z = true)
                (episodesOf byCategory)).
Proof.
  intros popular recent byCategory.
  assert (Hsort : "top-past-week" <> "most-recent") by discriminate.
  pose proof (listings_stay_inside_the_window
                Fixture.services (Fixture.query "top-past-week" None None)
                Samples.popularWorld
                (fun _ _ rows => Permutation_refl rows)) as [Hpopular _].
  pose proof (listings_stay_inside_the_window
                Fixture.services (Fixture.query "most-recent" None None)
                Samples.popularWorld
                (fun _ _ rows => Permutation_refl rows)) as [Hrecent _].
  pose proof (listings_stay_inside_the_window
                Fixture.services (Fixture.query "top-past-week" (Some "cat1") None)
                Samples.popularWorld
                (fun _ _ rows => Permutation_refl rows)) as [_ HbyCategory].
  split; [split; [reflexivity | exact Hpopular]|].
  split; [split; [reflexivity | exact Hrecent]|].
  split; [reflexivity | exact (HbyCategory Hsort)].
Defined.

Lemma recentQueriesOf_app tr1 tr2 :
  recentQueriesOf (tr1 ++ tr2) = recentQueriesOf tr1 ++ recentQueriesOf tr2.
Proof. apply flat_map_app. Qed.

(** X12.  When the by-podcast listing has exactly one id, or a sort other
    than [most-recent], it does not read the recency projection, and every
    episode it returns is a public episode of one of the requested
    podcasts. *)
Theorem getEpisodesByPodcastIds_direct (sv : Services) (query : Query.t) (w : World) :
  (forall column dir rows, Permutation (orderRows sv column dir rows) rows) ->
  List.length (splitIds (Query.podcastId query)) = 1%nat
  \/ Query.sort query <> "most-recent" ->
  let run := getEpisodesByPodcastIds sv query w in
  recentQueriesOf (trace (snd run)) = recentQueriesOf (trace w)
  /\ Forall (fun e => Episode.isPublic e = true
                      /\ In (Episode.podcastId e) (splitIds (Query.podcastId query)))
            (episodesOf run).
Proof.
  intros Hperm Hcase run.
  set (podcastIds := splitIds (Query.podcastId query)) in *.
  assert (Hdirect : forall qb,
             let direct := handleGetEpisodesWithOrdering
                             sv (QB.andWhere CondIsPublic qb)
                             query (Query.skip query) (Query.sort query)
                             (Query.take query) w in
             (forall e, satisfies sv qb w e = true -> In (Episode.podcastId e) podcastIds) ->
             recentQueriesOf (trace (snd direct)) = recentQueriesOf (trace w)
             /\ Forall (fun e => Episode.isPublic e = true
                                 /\ In (Episode.podcastId e) podcastIds)
                       (episodesOf direct)).
  { intros qb direct Hpod. split.
    - subst direct.
      destruct (handleGetEpisodesWithOrdering_run
                  sv (QB.andWhere CondIsPublic qb) query (Query.skip query)
                  (Query.sort query) (Query.take query) w)
        as [qb' [_ [_ [_ [_ [Hrun _]]]]]].
      rewrite Hrun. simpl. rewrite recentQueriesOf_app. simpl. apply app_nil_r.
    - apply Forall_forall. intros e He.
      apply (direct_path_results sv _ query _ _ _ w e Hperm) in He.
      destruct He as [e0 [-> [_ Hsat]]].
      apply satisfies_andWhere_inv in Hsat. destruct Hsat as [Hsat Hpublic].
      split; [exact Hpublic | exact (Hpod e0 Hsat)]. }
  assert (Hin : forall qb e,
             satisfies sv (QB.andWhere (CondPodcastIdIn podcastIds) qb) w e = true ->
             In (Episode.podcastId e) podcastIds).
  { intros qb e Hsat. apply satisfies_andWhere_inv in Hsat.
    destruct Hsat as [_ Hmem]. now apply memStr_In. }
  subst run. unfold getEpisodesByPodcastIds, bind, getWorld. fold podcastIds.
  destruct (List.length podcastIds =? 1)%nat eqn:Hone.
  - unfold getEpisodesByPodcastId. apply Hdirect. apply Hin.
  - destruct Hcase as [Hlen|Hsort]; [apply Nat.eqb_neq in Hone; contradiction|].
    apply String.eqb_neq in Hsort. rewrite Hsort.
    apply Hdirect. intros e Hsat.
    destruct (10 <? List.length podcastIds)%nat.
    + apply limitEpisodesQuerySize_window in Hsat. destruct Hsat as [Hsat _].
      exact (Hin _ e Hsat).
    + exact (Hin _ e Hsat).
Qed.

Lemma getEpisodesByPodcastIds_direct_witness :
  Forall (fun e => Episode.isPublic e = true /\ In (Episode.podcastId e) ["pod1"])
         (episodesOf (getEpisodesByPodcastIds
                        Fixture.services (Fixture.query "most-recent" None (Some "pod1"))
                        Fixture.recencyWorld)).
Proof.
  exact (proj2 (getEpisodesByPodcastIds_direct
                  Fixture.services (Fixture.query "most-recent" None (Some "pod1"))
                  Fixture.recencyWorld
                  (fun _ _ rows => Permutation_refl rows)
                  (or_introl eq_refl))).
Defined.

(** ** More on the Chapter Synchronizer *)

Lemma requestsOf_app tr1 tr2 : requestsOf (tr1 ++ tr2) = requestsOf tr1 ++ requestsOf tr2.
Proof. apply flat_map_app. Qed.

Lemma sameRequests_refl w : sameRequests w w.
Proof. reflexivity. Qed.

Lemma sameRequests_trans w1 w2 w3 :
  sameRequests w1 w2 -> sameRequests w2 w3 -> sameRequests w1 w3.
Proof. unfold sameRequests. congruence. Qed.

Lemma record_event_sameRequests ev w :
  (forall url, ev <> EvRequest url) -> sameRequests w (record_event ev w).
Proof.
  intros Hev. unfold sameRequests. simpl. rewrite requestsOf_app. simpl.
  destruct ev; try (now rewrite app_nil_r). now elim (Hev url).
Qed.

Lemma callUpdateMediaRef_sameRequests sv obj user :
  keeps sameRequests (callUpdateMediaRef sv obj user).
Proof.
  intros w. unfold callUpdateMediaRef.
  destruct (updateMediaRef sv obj user _); simpl;
    apply (record_event_sameRequests (EvUpdateMediaRef obj user) w); discriminate.
Qed.

Lemma callCreateMediaRef_sameRequests sv obj : keeps sameRequests (callCreateMediaRef sv obj).
Proof.
  intros w. unfold callCreateMediaRef.
  destruct (createMediaRef sv obj _); simpl;
    apply (record_event_sameRequests (EvCreateMediaRef obj) w); discriminate.
Qed.

Lemma consoleLog_sameRequests label e : keeps sameRequests (consoleLog label e).
Proof. intros w. apply record_event_sameRequests. discriminate. Qed.

Lemma reconciliation_sameRequests sv existingChapters id newChapters :
  keeps sameRequests
        (bind (suppressDeadChapters sv (deadChaptersOf existingChapters newChapters))
              (fun _ => syncNewChapters sv existingChapters id newChapters)).
Proof.
  apply (keeps_bind sameRequests sameRequests_trans).
  - apply (keeps_forOf sameRequests sameRequests_refl sameRequests_trans).
    intros x. apply callUpdateMediaRef_sameRequests.
  - intros _. apply (keeps_forOf sameRequests sameRequests_refl sameRequests_trans).
    intros nc. apply (keeps_tryCatch sameRequests sameRequests_trans).
    + unfold reconcileNewChapter.
      destruct (find _ existingChapters) as [x|];
        [destruct (negb _)|];
        auto using callUpdateMediaRef_sameRequests, callCreateMediaRef_sameRequests.
    + intros e. apply consoleLog_sameRequests.
Qed.

Lemma remoteSync_requests sv episodeId url id w :
  requestsOf (trace (snd (remoteSync sv episodeId url id w)))
  = requestsOf (trace w) ++ [url].
Proof.
  unfold remoteSync. unfold bind at 1. unfold episodeRepositoryUpdate.
  set (w0 := record_event (EvEpisodeUpdate episodeId (now w)) _).
  assert (H0 : requestsOf (trace w0) = requestsOf (trace w)).
  { subst w0. simpl. rewrite requestsOf_app. simpl. apply app_nil_r. }
  unfold bind at 1. unfold callRequest.
  set (w1 := record_event (EvRequest url) w0).
  assert (H1 : requestsOf (trace w1) = requestsOf (trace w) ++ [url]).
  { subst w1.
    change (trace (record_event (EvRequest url) w0)) with (trace w0 ++ [EvRequest url]).
    rewrite requestsOf_app, H0. reflexivity. }
  destruct (request sv url) as [e|response]; [exact H1|].
  unfold bind at 1. unfold callParse.
  destruct (parseChapters sv response) as [e|[|newChapters]]; [exact H1 | exact H1 |].
  unfold bind at 1. unfold getExistingChapters.
  rewrite <- H1. apply reconciliation_sameRequests.
Qed.

(** X13.  A call of [retrieveLatestChapters] fetches at most once: the
    episode's [chaptersUrl], exactly when the episode exists, the URL is
    non-empty and [chaptersUrlLastParsed] is unset or later than
    [now + 12h]; in every other case it fetches nothing. *)
Theorem retrieveLatestChapters_requests (sv : Services) (id : string) (w : World) :
  requestsOf (trace (snd (retrieveLatestChapters sv id w)))
  = requestsOf (trace w) ++ expectedRequests id w.
Proof.
  unfold expectedRequests.
  destruct (find (fun e => Episode.id e =? id) (episodes w)) as [episode|] eqn:Hfind.
  - rewrite (retrieveLatestChapters_found sv id w episode Hfind). simpl.
    unfold afterSync.
    destruct (Episode.chaptersUrl episode) as [url|].
    + assert (Hfetch :
                requestsOf (trace (snd (tryCatch
                                          (remoteSync sv (Episode.id episode) url id)
                                          (consoleLog "retrieveLatestChapters request") w)))
                = requestsOf (trace w) ++ [url]).
      { unfold tryCatch.
        pose proof (remoteSync_requests sv (Episode.id episode) url id w) as Hreq.
        destruct (remoteSync sv (Episode.id episode) url id w) as [[[]|e] w1];
          simpl in *; [exact Hreq|].
        rewrite requestsOf_app, Hreq. simpl. apply app_nil_r. }
      unfold shouldSync, truthy.
      destruct (url =? EmptyString); cbn [negb andb]; [now rewrite app_nil_r|].
      destruct (Episode.chaptersUrlLastParsed episode) as [lastParsed|];
        cbn [isSome negb orb getTime]; [|exact Hfetch].
      change (now w + 1 * 12 * 60 * 60 * 1000)%Z with (now w + 43200000)%Z.
      destruct (now w + 43200000 <? lastParsed)%Z; [exact Hfetch | now rewrite app_nil_r].
    + unfold shouldSync. simpl. now rewrite app_nil_r.
  - rewrite (retrieveLatestChapters_missing sv id w Hfind). simpl. now rewrite app_nil_r.
Qed.

(** X14.  When the guard is open, the row of the episode carries
    [chaptersUrlLastParsed = now] after the call whatever the fetch, the
    parse and the reconciliation did, so a failed attempt is stamped like
    a successful one; the rows of the other episodes are as before.  When
    the guard is closed the episode table is as before. *)
Theorem retrieveLatestChapters_stamp (sv : Services) (id : string) (w : World) :
  let w' := snd (retrieveLatestChapters sv id w) in
  match find (fun e => Episode.id e =? id) (episodes w) with
  | Some episode =>
      if shouldSync (now w) (Episode.chaptersUrl episode)
                    (Episode.chaptersUrlLastParsed episode)
      then find (fun e => Episode.id e =? id) (episodes w')
           = Some (Episode.set_chaptersUrlLastParsed (Some (now w)) episode)
           /\ map Episode.id (episodes w') = map Episode.id (episodes w)
           /\ forall e, In e (episodes w) -> Episode.id e <> id -> In e (episodes w')
      else episodes w' = episodes w
  | None => w' = w
  end.
Proof.
  intros w'. subst w'.
  destruct (find (fun e => Episode.id e =? id) (episodes w)) as [episode|] eqn:Hfind.
  - rewrite (retrieveLatestChapters_found sv id w episode Hfind). simpl.
    destruct (afterSync_catalog sv id episode w) as [_ Heps].
    pose proof (find_some _ _ Hfind) as [_ Hid]. apply String.eqb_eq in Hid.
    destruct (shouldSync _ _ _); [|exact Heps].
    rewrite Heps. unfold stamped. rewrite Hid. split; [|split].
    + rewrite find_map_preserving.
      * rewrite Hfind. simpl. now rewrite Hid, String.eqb_refl.
      * intros x. destruct (Episode.id x =? id) eqn:E; simpl; now rewrite ?E.
    + rewrite map_map. apply map_ext. intros e.
      destruct (Episode.id e =? id); reflexivity.
    + intros e He Hne. apply in_map_iff. exists e. split; [|exact He].
      apply String.eqb_neq in Hne. now rewrite Hne.
  - now rewrite (retrieveLatestChapters_missing sv id w Hfind).
Qed.

(** X15.  When the document cannot be had with a [chapters] value (the
    fetch fails, the parse fails, or [chapters] is absent or falsy), the
    call leaves the media-reference table as it is, calls neither
    [updateMediaRef] nor [createMediaRef], and returns the chapters that
    were stored. *)
Theorem no_document_no_reconciliation
        (sv : Services) (id url : string) (w : World) (episode : Episode.t) :
  find (fun e => Episode.id e =? id) (episodes w) = Some episode ->
  Episode.chaptersUrl episode = Some url ->
  (forall newChapters, documentOf sv url <> inr (Chapters newChapters)) ->
  let run := retrieveLatestChapters sv id w in
  mediaRefs (snd run) = mediaRefs w
  /\ attemptedStartTimes (trace (snd run)) = attemptedStartTimes (trace w)
  /\ fst run = Returns (storedChapters id w).
Proof.
  intros Hfind Hurl Hdoc run. subst run.
  rewrite (retrieveLatestChapters_found sv id w episode Hfind). simpl.
  assert (Hsame : sameMediaRefs w (afterSync sv id episode w)).
  { unfold afterSync. destruct (shouldSync _ _ _); [|split; reflexivity].
    rewrite Hurl.
    unfold tryCatch, remoteSync, bind, episodeRepositoryUpdate, callRequest, callParse,
      consoleLog, emit.
    unfold documentOf in Hdoc. cbv beta iota.
    assert (Hlog : forall ev1 ev2 e,
               sameMediaRefs w
                 (record_event (EvLog "retrieveLatestChapters request" e)
                    (record_event (EvRequest ev1)
                       (record_event (EvEpisodeUpdate ev2 (now w))
                          (set_episodes (stamped ev2 (now w) (episodes w)) w))))).
    { intros ev1 ev2 e. split; [reflexivity|].
      unfold record_event, set_episodes. cbn [trace].
      rewrite !attemptedStartTimes_app. cbn [attemptedStartTimes flat_map app].
      now rewrite !app_nil_r. }
    destruct (request sv url) as [e|response]; cbv beta iota.
    - apply Hlog.
    - destruct (parseChapters sv response) as [e|[|newChapters]]; cbv beta iota.
      + apply Hlog.
      + split; [reflexivity|].
        unfold ret, record_event, set_episodes. cbn [snd trace].
        rewrite !attemptedStartTimes_app. cbn [attemptedStartTimes flat_map app].
        now rewrite !app_nil_r.
      + now elim (Hdoc newChapters). }
  destruct Hsame as [Hrefs Hattempts].
  split; [exact Hrefs|]. split; [exact Hattempts|].
  unfold storedChapters. now rewrite Hrefs.
Qed.

Lemma no_document_no_reconciliation_witness :
  mediaRefs (snd (retrieveLatestChapters Fixture.services "ep1" Samples.unreachableWorld))
  = mediaRefs Samples.unreachableWorld
  /\ fst (retrieveLatestChapters Fixture.services "ep1" Samples.unreachableWorld)
     = Returns (storedChapters "ep1" Samples.unreachableWorld).
Proof.
  assert (Hdoc : forall newChapters,
             documentOf Fixture.services Samples.unreachableUrl
             <> inr (Chapters newChapters)) by (intros newChapters; discriminate).
  destruct (no_document_no_reconciliation
              Fixture.services "ep1" Samples.unreachableUrl Samples.unreachableWorld
              (Fixture.episode "ep1" "pod1" true (Some Samples.unreachableUrl) None)
              eq_refl eq_refl Hdoc) as [Hrefs [_ Hret]].
  split; [exact Hrefs | exact Hret].
Defined.

(** *** What the synchronizer hands to the media-reference controller *)

Lemma keeps_forOf_In {A} (R : World -> World -> Prop) (xs : list A) (body : A -> M unit) :
  (forall w, R w w) ->
  (forall w1 w2 w3, R w1 w2 -> R w2 w3 -> R w1 w3) ->
  (forall x, In x xs -> keeps R (body x)) ->
  keeps R (forOf xs body).
Proof.
  intros Hrefl Htrans. induction xs as [|x rest IH]; intros Hbody; simpl.
  - apply (keeps_ret R Hrefl).
  - apply (keeps_bind R Htrans).
    + apply Hbody. now left.
    + intros _. apply IH. intros y Hy. apply Hbody. now right.
Qed.

Lemma addsOnly_refl P w : addsOnly P w w.
Proof. exists []. split; [now rewrite app_nil_r | constructor]. Qed.

Lemma addsOnly_trans P w1 w2 w3 : addsOnly P w1 w2 -> addsOnly P w2 w3 -> addsOnly P w1 w3.
Proof.
  intros [evs1 [H1 F1]] [evs2 [H2 F2]]. exists (evs1 ++ evs2). split.
  - now rewrite H2, H1, app_assoc.
  - apply Forall_app. split; assumption.
Qed.

Lemma addsOnly_event (P : Event -> Prop) ev w w' :
  P ev -> trace w' = trace w ++ [ev] -> addsOnly P w w'.
Proof. intros Hev Htr. exists [ev]. split; [exact Htr | now constructor]. Qed.

Lemma callUpdateMediaRef_events sv (P : Event -> Prop) obj user :
  P (EvUpdateMediaRef obj user) -> keeps (addsOnly P) (callUpdateMediaRef sv obj user).
Proof.
  intros Hev w. unfold callUpdateMediaRef.
  destruct (updateMediaRef sv obj user _);
    apply (addsOnly_event P (EvUpdateMediaRef obj user)); auto.
Qed.

Lemma callCreateMediaRef_events sv (P : Event -> Prop) obj :
  P (EvCreateMediaRef obj) -> keeps (addsOnly P) (callCreateMediaRef sv obj).
Proof.
  intros Hev w. unfold callCreateMediaRef.
  destruct (createMediaRef sv obj _);
    apply (addsOnly_event P (EvCreateMediaRef obj)); auto.
Qed.

Lemma reconciliation_events sv id officialIds existingChapters newChapters :
  (forall x, In x existingChapters -> In (RawChapter.id x) officialIds) ->
  keeps (addsOnly (isSynchronizerEvent sv id officialIds))
        (bind (suppressDeadChapters sv (deadChaptersOf existingChapters newChapters))
              (fun _ => syncNewChapters sv existingChapters id newChapters)).
Proof.
  intros Hids.
  set (P := isSynchronizerEvent sv id officialIds).
  pose proof (addsOnly_trans P) as Htrans.
  pose proof (addsOnly_refl P) as Hrefl.
  assert (Hcreate : forall nc, keeps (addsOnly P) (callCreateMediaRef sv (createObj sv id nc))).
  { intros nc. apply callCreateMediaRef_events. repeat split. }
  apply (keeps_bind (addsOnly P) Htrans).
  - apply (keeps_forOf_In (addsOnly P) _ _ Hrefl Htrans). intros x Hx.
    apply callUpdateMediaRef_events. split; [|reflexivity]. simpl.
    apply Hids. unfold deadChaptersOf in Hx. now apply filter_In in Hx.
  - intros _. apply (keeps_forOf (addsOnly P) Hrefl Htrans). intros nc.
    apply (keeps_tryCatch (addsOnly P) Htrans).
    + unfold reconcileNewChapter.
      destruct (find _ existingChapters) as [x|] eqn:Hfind; [|apply Hcreate].
      destruct (negb _); [|apply Hcreate].
      apply callUpdateMediaRef_events. split; [|reflexivity]. simpl.
      apply Hids. apply (find_some _ _ Hfind).
    + intros e w. apply (addsOnly_event P (EvLog "retrieveLatestChapters newChapter" e));
        [exact I | reflexivity].
Qed.

Lemma remoteSync_events sv episodeId url id w :
  addsOnly (isSynchronizerEvent sv id
              (map MediaRef.id (filter MediaRef.isOfficialChapter (mediaRefs w))))
           w (snd (remoteSync sv episodeId url id w)).
Proof.
  set (P := isSynchronizerEvent sv id _).
  unfold remoteSync. unfold bind at 1. unfold episodeRepositoryUpdate.
  set (w0 := record_event (EvEpisodeUpdate episodeId (now w)) _).
  assert (H0 : addsOnly P w w0).
  { apply (addsOnly_event P (EvEpisodeUpdate episodeId (now w))); [exact I | reflexivity]. }
  unfold bind at 1. unfold callRequest.
  set (w1 := record_event (EvRequest url) w0).
  assert (H1 : addsOnly P w w1).
  { apply (addsOnly_trans P w w0 w1 H0).
    apply (addsOnly_event P (EvRequest url)); [exact I | reflexivity]. }
  destruct (request sv url) as [e|response]; [exact H1|].
  unfold bind at 1. unfold callParse.
  destruct (parseChapters sv response) as [e|[|newChapters]]; [exact H1 | exact H1 |].
  unfold bind at 1. unfold getExistingChapters.
  apply (addsOnly_trans P w w1 _ H1).
  apply reconciliation_events.
  intros x Hx. apply in_map_iff in Hx. destruct Hx as [m [<- Hm]]. simpl.
  apply in_map. exact Hm.
Qed.

(** X16.  Whatever the collaborators do, a run of the synchronizer for
    episode [id] calls [updateMediaRef] only on media references that were
    official chapters when the run started, and in the name of the super
    user; what it hands to [createMediaRef] is always a public official
    chapter of episode [id] owned by the super user; and it adds nothing
    to the trace but those calls, the stamp, the fetch and log lines. *)
Theorem synchronizer_calls (sv : Services) (id : string) (w : World) :
  addsOnly (isSynchronizerEvent sv id
              (map MediaRef.id (filter MediaRef.isOfficialChapter (mediaRefs w))))
           w (snd (retrieveLatestChapters sv id w)).
Proof.
  set (P := isSynchronizerEvent sv id _).
  destruct (find (fun e => Episode.id e =? id) (episodes w)) as [episode|] eqn:Hfind.
  - rewrite (retrieveLatestChapters_found sv id w episode Hfind). simpl.
    unfold afterSync. destruct (shouldSync _ _ _); [|apply addsOnly_refl].
    unfold tryCatch.
    pose proof (remoteSync_events
                  sv (Episode.id episode)
                  (match Episode.chaptersUrl episode with Some u => u | None => EmptyString end)
                  id w) as Hsync.
    fold P in Hsync.
    destruct (remoteSync sv _ _ id w) as [[[]|e] w1]; simpl in *; [exact Hsync|].
    apply (addsOnly_trans P w w1 _ Hsync).
    apply (addsOnly_event P (EvLog "retrieveLatestChapters request" e));
      [exact I | reflexivity].
  - rewrite (retrieveLatestChapters_missing sv id w Hfind). apply addsOnly_refl.
Qed.

(** ** More on the Dead-Episode Reaper *)

Lemma removeDeadEpisodes_run (w : World) :
  let selected := firstn 100 (map Episode.id (deadEpisodesOf w)) in
  fst (removeDeadEpisodes w) = Returns (List.length selected =? 100)%nat
  /\ episodes (snd (removeDeadEpisodes w))
     = filter (fun e => negb (memStr (Episode.id e) selected)) (episodes w)
  /\ mediaRefs (snd (removeDeadEpisodes w)) = mediaRefs w.
Proof.
  intros selected.
  set (w0 := record_event (EvLogCount "dead episode count:" (List.length selected)) w).
  assert (Hget : getDeadEpisodes w = (Returns selected, w0)) by reflexivity.
  unfold removeDeadEpisodes, bind. rewrite Hget.
  destruct (removeEpisodes_run selected w0) as [Hret [Heps Hrefs]].
  destruct (removeEpisodes selected w0) as [r w1].
  cbn [fst snd] in Hret, Heps, Hrefs. subst r.
  unfold sleep, ret. cbn [fst snd]. repeat split; assumption.
Qed.





Lemma removeDeadEpisodes_false_exhausts (w : World) :
  fst (removeDeadEpisodes w) = Returns false ->
  deadEpisodesOf (snd (removeDeadEpisodes w)) = [].
Proof.
  intros Hfalse.
  destruct (removeDeadEpisodes_run w) as [Hret [Heps Hrefs]].
  rewrite Hret in Hfalse.
  apply (f_equal (fun o => match o with Returns b => b | Throws _ => true end)) in Hfalse.
  cbv beta iota in Hfalse. rename Hfalse into Hlen.
  assert (Hall : firstn 100 (map Episode.id (deadEpisodesOf w))
                 = map Episode.id (deadEpisodesOf w)).
  { apply firstn_all2. apply Nat.eqb_neq in Hlen.
    rewrite length_firstn in Hlen. lia. }
  unfold deadEpisodesOf at 1. rewrite Hrefs, Heps, Hall.
  destruct (filter _ (filter _ (episodes w))) as [|e rest] eqn:Hleft; [reflexivity|].
  exfalso.
  assert (He : In e (filter (isDead (mediaRefs w))
                            (filter (fun e => negb (memStr (Episode.id e)
                                                           (map Episode.id (deadEpisodesOf w))))
                                    (episodes w))))
    by (rewrite Hleft; now left).
  apply filter_In in He. destruct He as [He Hdead].
  apply filter_In in He. destruct He as [He Hout].
  apply negb_true_iff in Hout.
  assert (Hin : memStr (Episode.id e) (map Episode.id (deadEpisodesOf w)) = true).
  { apply memStr_In. apply in_map. apply filter_In. split; assumption. }
  congruence.
Qed.

(** X18.  A pass that returns [false] has removed every dead episode:
    every non-public episode still in the table has a media reference. *)
Theorem removeDeadEpisodes_false_leaves_no_dead_episode (w : World) :
  fst (removeDeadEpisodes w) = Returns false ->
  forall e,
    In e (episodes (snd (removeDeadEpisodes w))) ->
    Episode.isPublic e = false ->
    exists m,
      In m (mediaRefs (snd (removeDeadEpisodes w)))
      /\ MediaRef.episodeId m = Episode.id e.
Proof.
  intros Hfalse e He Hhidden.
  pose proof (removeDeadEpisodes_false_exhausts w Hfalse) as Hnone.
  destruct (existsb (fun m => MediaRef.episodeId m =? Episode.id e)
                    (mediaRefs (snd (removeDeadEpisodes w)))) eqn:Hrefs.
  - apply existsb_exists in Hrefs. destruct Hrefs as [m [Hm Hid]].
    exists m. split; [exact Hm | now apply String.eqb_eq].
  - exfalso.
    assert (Hdead : In e (deadEpisodesOf (snd (removeDeadEpisodes w)))).
    { apply filter_In. split; [exact He|]. unfold isDead. now rewrite Hhidden, Hrefs. }
    rewrite Hnone in Hdead. contradiction.
Qed.

Lemma removeDeadEpisodes_false_leaves_no_dead_episode_witness :
  let pass := removeDeadEpisodes Samples.keptWorld in
  fst pass = Returns false
  /\ map Episode.id (episodes Samples.keptWorld) = ["kept"; "lost"; "live"]
  /\ map Episode.id (episodes (snd pass)) = ["kept"; "live"]
  /\ exists m, In m (mediaRefs (snd pass)) /\ MediaRef.episodeId m = "kept".
Proof.
  intros pass.
  assert (H : fst pass = Returns false) by (vm_compute; reflexivity).
  split; [exact H|]. split; [reflexivity|]. split; [reflexivity|].
  exact (removeDeadEpisodes_false_leaves_no_dead_episode
           Samples.keptWorld H (Fixture.episode "kept" "pod1" false None None)
           (or_introl eq_refl) eq_refl).
Defined.





(** ** The by-category listing *)

Lemma limitEpisodesQuerySize_joins sv nowMs qb shouldLimit sort :
  QB.joins (limitEpisodesQuerySize sv nowMs qb shouldLimit sort) = QB.joins qb.
Proof.
  unfold limitEpisodesQuerySize. destruct shouldLimit; [|reflexivity].
  repeat match goal with
         | |- context [if ?b then _ else _] => destruct b; [reflexivity|]
         end.
  reflexivity.
Qed.

Lemma satisfies_join sv qb w e j :
  satisfies sv qb w e = true -> In j (QB.joins qb) -> evalJoin (podcasts w) j e = true.
Proof.
  unfold satisfies. intros Hsat Hj. apply andb_true_iff in Hsat.
  destruct Hsat as [Hjoins _]. rewrite forallb_forall in Hjoins. now apply Hjoins.
Qed.

(** X20.  For every sort but [most-recent], each episode the by-category
    listing returns is public and belongs to a podcast of the podcast
    table that carries one of the requested categories. *)
Theorem getEpisodesByCategoryIds_direct (sv : Services) (query : Query.t) (w : World) :
  (forall column dir rows, Permutation (orderRows sv column dir rows) rows) ->
  Query.sort query <> "most-recent" ->
  Forall (fun e =>
            Episode.isPublic e = true
            /\ exists p c,
                In p (podcasts w)
                /\ Podcast.id p = Episode.podcastId e
                /\ In c (Podcast.categories p)
                /\ In c (splitIds (Query.categories query)))
         (episodesOf (getEpisodesByCategoryIds sv query w)).
Proof.
  intros Hperm Hsort. unfold getEpisodesByCategoryIds, bind, getWorld.
  apply String.eqb_neq in Hsort. rewrite Hsort.
  apply Forall_forall. intros e He.
  apply (direct_path_results sv _ query _ _ _ w e Hperm) in He.
  destruct He as [e0 [-> [_ Hsat]]].
  apply satisfies_andWhere_inv in Hsat. destruct Hsat as [Hsat Hpublic].
  split; [exact Hpublic|].
  assert (Hjoin : evalJoin (podcasts w)
                           (InnerJoinCategories (splitIds (Query.categories query))) e0
                  = true).
  { apply (satisfies_join sv _ w e0 _ Hsat).
    rewrite limitEpisodesQuerySize_joins. simpl. right. left. reflexivity. }
  simpl in Hjoin. apply existsb_exists in Hjoin. destruct Hjoin as [p [Hp Hmatch]].
  apply andb_true_iff in Hmatch. destruct Hmatch as [Hid Hcat].
  apply String.eqb_eq in Hid. apply existsb_exists in Hcat. destruct Hcat as [c [Hc Hmem]].
  apply memStr_In in Hmem.
  exists p, c. repeat split; assumption.
Qed.

Lemma getEpisodesByCategoryIds_direct_witness :
  Forall (fun e =>
            Episode.isPublic e = true
            /\ exists p c,
                In p (podcasts Fixture.recencyWorld)
                /\ Podcast.id p = Episode.podcastId e
                /\ In c (Podcast.categories p)
                /\ In c ["cat1"])
         (episodesOf (getEpisodesByCategoryIds
                        Fixture.services (Fixture.query "random" (Some "cat1") None)
                        Fixture.recencyWorld)).
Proof.
  refine (getEpisodesByCategoryIds_direct
            Fixture.services (Fixture.query "random" (Some "cat1") None)
            Fixture.recencyWorld (fun _ _ rows => Permutation_refl rows) _).
  discriminate.
Defined.
